(** * gocmd2: module registry, command namespace, help composer

    A shallow embedding of the Go packages [shell] (the [Shell] struct and
    its methods), [core] (the built-in module and its help function) and
    [shellapi], together with the parts of the libraries they call:
    cobra's command tree, readline's instance and a few functions of the
    Go standard library ([strings], [fmt]).

    Go strings are byte strings: they are modelled by [string], whose
    characters are the bytes.  Pointers to [cobra.Command] are modelled by
    a [ptr] field that carries the identity of the object.  The code a
    module brings along (its [Initialize], the [Run] of its commands, an
    exit handler) is a tree of calls of the interface [ShellAPI], which
    the shell answers ([shell.exec]); the order in which Go ranges over
    a map is an argument of the functions that depend on it. *)

From Stdlib Require Import ZArith Ascii String List Permutation.
From stdpp Require Import base gmap strings list fin_maps.

Local Open Scope Z_scope.

(** ** The Go standard library functions the code calls *)

Module gostrings.

Definition bytes (l : list nat) : list ascii := map ascii_of_nat l.

(** [unicode.IsSpace]: the code points with the White_Space property,
    each one given by its UTF-8 encoding:
    U+0009..U+000D, U+0020, U+0085, U+00A0, U+1680, U+2000..U+200A,
    U+2028, U+2029, U+202F, U+205F, U+3000. *)
Definition white_space : list (list ascii) :=
  map bytes
    [ [9]; [10]; [11]; [12]; [13]; [32];
      [194; 133]; [194; 160];
      [225; 154; 128];
      [226; 128; 128]; [226; 128; 129]; [226; 128; 130]; [226; 128; 131];
      [226; 128; 132]; [226; 128; 133]; [226; 128; 134]; [226; 128; 135];
      [226; 128; 136]; [226; 128; 137]; [226; 128; 138];
      [226; 128; 168]; [226; 128; 169]; [226; 128; 175];
      [226; 129; 159];
      [227; 128; 128] ]%nat.

(** [cutPrefix w l] is [Some r] when [l = w ++ r]. *)
Fixpoint cutPrefix (w l : list ascii) : option (list ascii) :=
  match w, l with
  | [], _ => Some l
  | a :: w', b :: l' => if Ascii.eqb a b then cutPrefix w' l' else None
  | _ :: _, [] => None
  end.

(** The first pattern of [pats] that starts [l], cut off. *)
Fixpoint cutAny (pats : list (list ascii)) (l : list ascii)
  : option (list ascii) :=
  match pats with
  | [] => None
  | w :: pats' =>
      match cutPrefix w l with
      | Some r => Some r
      | None => cutAny pats' l
      end
  end.

(** Drop one white space rune at the front, as often as there is one.
    The fuel is the number of bytes, and every rune has one at least. *)
Fixpoint trimN (pats : list (list ascii)) (fuel : nat) (l : list ascii)
  : list ascii :=
  match fuel with
  | O => l
  | S fuel' =>
      match cutAny pats l with
      | Some r => trimN pats fuel' r
      | None => l
      end
  end.

(** [strings.TrimLeftFunc(s, unicode.IsSpace)] on the bytes of [s]. *)
Definition trimLeft (l : list ascii) : list ascii :=
  trimN white_space (length l) l.

(** [strings.TrimRightFunc(s, unicode.IsSpace)]: the last rune of [s] is
    a white space rune exactly when its encoding ends [s], so the right
    trim is the left trim of the reversed bytes against the reversed
    encodings. *)
Definition trimRight (l : list ascii) : list ascii :=
  rev (trimN (map (@rev ascii) white_space) (length l) (rev l)).

(** [strings.TrimSpace]: all leading and trailing white space removed,
    as defined by Unicode. *)
Definition TrimSpace (s : string) : string :=
  string_of_list_ascii (trimRight (trimLeft (list_ascii_of_string s))).

(** [s] starts (ends) with a white space rune. *)
Definition leadingSpace (s : string) : bool :=
  match cutAny white_space (list_ascii_of_string s) with
  | Some _ => true
  | None => false
  end.

Definition trailingSpace (s : string) : bool :=
  match cutAny (map (@rev ascii) white_space)
               (rev (list_ascii_of_string s)) with
  | Some _ => true
  | None => false
  end.

(** [strings.HasPrefix]. *)
Fixpoint HasPrefix (s prefix : string) : bool :=
  match prefix, s with
  | EmptyString, _ => true
  | String a p', String b s' => Ascii.eqb a b && HasPrefix s' p'
  | String _ _, EmptyString => false
  end.

(** [strings.Index(s, substr)]: the byte offset of the first occurrence
    of [substr] in [s], or -1. *)
Fixpoint Index (s substr : string) : Z :=
  if HasPrefix s substr then 0
  else match s with
       | EmptyString => -1
       | String _ s' =>
           let i := Index s' substr in
           if i <? 0 then -1 else i + 1
       end.

(** The slice [s[:i]]. *)
Fixpoint take (i : nat) (s : string) : string :=
  match i, s with
  | S i', String a s' => String a (take i' s')
  | _, _ => EmptyString
  end.

(** [strings.Join(elems, sep)]. *)
Fixpoint Join (elems : list string) (sep : string) : string :=
  match elems with
  | [] => EmptyString
  | [e] => e
  | e :: rest => e +:+ sep +:+ Join rest sep
  end.

(** The value of a byte. *)
Definition byteValue (a : ascii) : N := Strings.Byte.to_N (byte_of_ascii a).

(** The table [first] of package utf8 for a byte from 0x80 on: the
    length of the sequence the byte starts and the range its second
    byte is to lie in; [None] for a byte that starts no sequence (0x80
    to 0xC1 and 0xF5 to 0xFF). *)
Definition first (c : N) : option (N * (N * N)) :=
  if (c <? 194)%N then None
  else if (c <=? 223)%N then Some (2, (128, 191))%N
  else if (c =? 224)%N then Some (3, (160, 191))%N
  else if (c <=? 236)%N then Some (3, (128, 191))%N
  else if (c =? 237)%N then Some (3, (128, 159))%N
  else if (c <=? 239)%N then Some (3, (128, 191))%N
  else if (c =? 240)%N then Some (4, (144, 191))%N
  else if (c <=? 243)%N then Some (4, (128, 191))%N
  else if (c =? 244)%N then Some (4, (128, 143))%N
  else None.

Definition between (lo hi : N) (a : ascii) : bool :=
  (lo <=? byteValue a)%N && (byteValue a <=? hi)%N.

(** [utf8.RuneCountInString]: a well-formed sequence of two, three or
    four bytes counts as one rune, and so does every single byte that
    is not part of one (an ASCII byte, or a byte of an ill-formed or
    cut-off sequence: the loop then steps over that one byte only). *)
Fixpoint RuneCountInString (s : string) : nat :=
  match s with
  | EmptyString => O
  | String c rest =>
      if (byteValue c <? 128)%N then S (RuneCountInString rest)
      else
        match first (byteValue c), rest with
        | Some (size, (lo, hi)), String c1 r1 =>
            if negb (between lo hi c1) then S (RuneCountInString rest)
            else if (size =? 2)%N then S (RuneCountInString r1)
            else
              match r1 with
              | String c2 r2 =>
                  if negb (between 128 191 c2) then S (RuneCountInString rest)
                  else if (size =? 3)%N then S (RuneCountInString r2)
                  else
                    match r2 with
                    | String c3 r3 =>
                        if negb (between 128 191 c3)
                        then S (RuneCountInString rest)
                        else S (RuneCountInString r3)
                    | EmptyString => S (RuneCountInString rest)
                    end
              | EmptyString => S (RuneCountInString rest)
              end
        | _, _ => S (RuneCountInString rest)
        end
  end.

Fixpoint spaces (n : nat) : string :=
  match n with
  | O => EmptyString
  | S n' => String " " (spaces n')
  end.

(** The verb [%-15s] of [fmt.Printf]: padded with spaces on the right
    to a width of [w] runes. *)
Definition padRight (w : nat) (s : string) : string :=
  s +:+ spaces (w - RuneCountInString s).

End gostrings.

(** ** Package shellapi: what a module can ask of the shell *)

Module shellapi.

(** A value of type [interface{}] held in the shared state. *)
Inductive Value : Type :=
| VNil
| VBool (b : bool)
| VInt (z : Z)
| VString (s : string)
| VTime (t : Z).

(** A Go [error], by its message. *)
Definition error : Type := string.

(** Code written against the interface [ShellAPI]: a module's
    [Initialize], a command's [Run], an exit handler.  Such code calls
    the methods of the interface, prints with [fmt] and may end the
    process with [os.Exit]; a call that returns a value hands it to
    the rest of the code.

    Of [GetRootCmd()] the code can use [Commands()] (the names of the
    commands, [CommandNames]) and [SetHelpFunc] with the help function
    of the core module ([SetHelpFunc]).  [GetEnabledModules] and
    [GetModuleCommands] are not offered to this code: code that writes
    into the map [GetModuleCommands()] returns, or that adds commands
    to the root command, removes commands from it or executes it, is
    not code of this type. *)
Inductive Prog : Type :=
| Return
| Exit (code : Z)
| Print (lines : list string) (k : Prog)
| EnableModule (moduleName : string) (k : option error -> Prog)
| DisableModule (moduleName : string) (k : option error -> Prog)
| IsModuleEnabled (moduleName : string) (k : bool -> Prog)
| GetModules (k : list string -> Prog)
| CommandNames (k : list string -> Prog)
| SetHelpFunc (k : Prog)
| SetState (key : string) (value : Value) (k : Prog)
| GetState (key : string) (k : Value * bool -> Prog)
| SetPrompt (prompt : string) (k : Prog)
| GetPrompt (k : string -> Prog)
| PrintAlert (message : string) (k : Prog).

(** [a(); b()]: the code [a], then the code [b] unless [a] has ended
    the process. *)
Fixpoint seq (a b : Prog) : Prog :=
  match a with
  | Return => b
  | Exit code => Exit code
  | Print lines k => Print lines (seq k b)
  | EnableModule n k => EnableModule n (fun e => seq (k e) b)
  | DisableModule n k => DisableModule n (fun e => seq (k e) b)
  | IsModuleEnabled n k => IsModuleEnabled n (fun r => seq (k r) b)
  | GetModules k => GetModules (fun r => seq (k r) b)
  | CommandNames k => CommandNames (fun r => seq (k r) b)
  | SetHelpFunc k => SetHelpFunc (seq k b)
  | SetState key v k => SetState key v (seq k b)
  | GetState key k => GetState key (fun r => seq (k r) b)
  | SetPrompt p k => SetPrompt p (seq k b)
  | GetPrompt k => GetPrompt (fun r => seq (k r) b)
  | PrintAlert msg k => PrintAlert msg (seq k b)
  end.

End shellapi.

(** ** The part of cobra the shell uses *)

Module cobra.

(** [Command.Args]: no validator, or [cobra.ExactArgs(n)]. *)
Inductive PositionalArgs : Type :=
| NoValidator
| ExactArgs (n : nat).

(** A [*cobra.Command] registered below the root: [ptr] is the identity
    of the object, the other fields are those the code sets or reads. *)
Record Command : Type := {
  ptr : nat;
  Use : string;
  Short : string;
  Long : string;
  Aliases : list string;
  Args : PositionalArgs;
  Run : list string -> shellapi.Prog
}.

Definition withRun (run : list string -> shellapi.Prog) (c : Command)
  : Command :=
  {| ptr := ptr c; Use := Use c; Short := Short c; Long := Long c;
     Aliases := Aliases c; Args := Args c; Run := run |}.

(** [Command.Name]: the first word of [Use]. *)
Definition Name (c : Command) : string :=
  let name := Use c in
  let i := gostrings.Index name " " in
  if 0 <=? i then gostrings.take (Z.to_nat i) name else name.

(** [Command.NameAndAliases]: the name and the aliases, joined. *)
Definition NameAndAliases (c : Command) : string :=
  gostrings.Join (Name c :: Aliases c) ", ".

(** [Command.HasAlias]. *)
Definition HasAlias (c : Command) (s : string) : bool :=
  existsb (String.eqb s) (Aliases c).

(** The help function of a command: cobra's own, or the one the core
    module installs with [SetHelpFunc]. *)
Inductive HelpFunc : Type :=
| DefaultHelp
| ModuleHelp.

(** The root command: its [Use], its children in the order of the
    slice [commands], the flag [commandsAreSorted] and its help
    function. *)
Record RootCommand : Type := {
  RootUse : string;
  commands : list Command;
  commandsAreSorted : bool;
  helpFunc : HelpFunc
}.

(** [Command.AddCommand] with one child: appended, and the slice no
    longer counts as sorted.  Nothing looks whether the child, or a
    command of the same name, is there already. *)
Definition AddCommand (x : Command) (c : RootCommand) : RootCommand :=
  {| RootUse := RootUse c;
     commands := commands c ++ [x];
     commandsAreSorted := false;
     helpFunc := helpFunc c |}.

(** [Command.RemoveCommand] with one child: every entry of the slice
    that is this object ([command == cmd] on pointers) is dropped. *)
Definition RemoveCommand (x : Command) (c : RootCommand) : RootCommand :=
  {| RootUse := RootUse c;
     commands := filter (fun y => ptr y ≠ ptr x) (commands c);
     commandsAreSorted := commandsAreSorted c;
     helpFunc := helpFunc c |}.

(** [sort.Sort(commandSorterByName(c.commands))]: ascending by
    [Name()].  Among commands of one name Go leaves the order open;
    here they keep the order they had. *)
Fixpoint insertByName (x : Command) (l : list Command) : list Command :=
  match l with
  | [] => [x]
  | y :: l' =>
      if String.leb (Name x) (Name y) then x :: y :: l'
      else y :: insertByName x l'
  end.

Definition sortByName (l : list Command) : list Command :=
  foldr insertByName [] l.

(** [Command.Commands]: sorts the slice in place unless it is marked
    sorted ([EnableCommandSorting] is true), and returns it. *)
Definition Commands (c : RootCommand) : RootCommand * list Command :=
  if commandsAreSorted c then (c, commands c)
  else
    let sorted := sortByName (commands c) in
    ({| RootUse := RootUse c;
        commands := sorted;
        commandsAreSorted := true;
        helpFunc := helpFunc c |}, sorted).

(** [Command.SetHelpFunc]. *)
Definition SetHelpFunc (f : HelpFunc) (c : RootCommand) : RootCommand :=
  {| RootUse := RootUse c;
     commands := commands c;
     commandsAreSorted := commandsAreSorted c;
     helpFunc := f |}.

(** The look-up of [Command.Find] for one token: the first child, in
    the order of the slice, whose name or one of whose aliases is the
    token. *)
Definition findNext (next : string) (c : RootCommand) : option Command :=
  List.find (fun cmd => String.eqb (Name cmd) next || HasAlias cmd next)
            (commands c).

End cobra.

(** ** The part of readline the shell uses *)

Module readline.

(** A [*readline.Instance]: the prompt, the history file, the words of
    the prefix completer, and what was written to the terminal. *)
Record Instance : Type := {
  Prompt : string;
  HistoryFile : string;
  AutoComplete : list string;
  written : list string
}.

Definition SetPrompt (p : string) (rl : Instance) : Instance :=
  {| Prompt := p; HistoryFile := HistoryFile rl;
     AutoComplete := AutoComplete rl; written := written rl |}.

Definition SetHistoryPath (path : string) (rl : Instance) : Instance :=
  {| Prompt := Prompt rl; HistoryFile := path;
     AutoComplete := AutoComplete rl; written := written rl |}.

Definition SetAutoComplete (words : list string) (rl : Instance)
  : Instance :=
  {| Prompt := Prompt rl; HistoryFile := HistoryFile rl;
     AutoComplete := words; written := written rl |}.

Definition Write (b : string) (rl : Instance) : Instance :=
  {| Prompt := Prompt rl; HistoryFile := HistoryFile rl;
     AutoComplete := AutoComplete rl; written := written rl ++ [b] |}.

End readline.

(** ** Package module *)

Module module.

(** The interface [module.CommandModule] (package module, the file
    printed after README.md): the methods [GetCommands() []*cobra.Command],
    [Name() string] and [Initialize(shell shellapi.ShellAPI)].
    [GetCommands] is the slice a call of the method returns,
    [Initialize] the code of the method, which is given the shell
    through the interface [shellapi.ShellAPI]. *)
Record CommandModule : Type := {
  Name : string;
  GetCommands : list cobra.Command;
  Initialize : shellapi.Prog
}.

End module.

(** ** Package core: the built-in module *)

Module core.

Import shellapi.

(** A view of the shell through [ShellAPI], as the help function reads
    it: [GetRootCmd().Commands()], [GetModuleCommands()],
    [IsModuleEnabled], [GetEnabledModules()] and [GetModules()]. *)
Record View : Type := {
  RootCommands : list cobra.Command;
  ModuleCommands : gmap string (list cobra.Command);
  ModuleEnabled : string -> bool;
  EnabledModules : list string;
  Modules : list string
}.

(** [Module.Name]. *)
Definition Name : string := "core".

(** The [Run] of the exit command. *)
Definition exitRun (args : list string) : Prog :=
  Print ["Goodbye!"] (Exit 0).

Definition exitCmd (p : nat) : cobra.Command :=
  {| cobra.ptr := p; cobra.Use := "exit"; cobra.Short := "Exit the shell";
     cobra.Long := ""; cobra.Aliases := []; cobra.Args := cobra.NoValidator;
     cobra.Run := exitRun |}.

(** The loop of the modules command: one line per module. *)
Fixpoint printModules (modules : list string) (k : Prog) : Prog :=
  match modules with
  | [] => k
  | name :: rest =>
      IsModuleEnabled name (fun enabled =>
        let status := if enabled then "enabled" else "disabled" in
        Print ["  " +:+ gostrings.padRight 15 name +:+ " [" +:+ status +:+ "]"]
              (printModules rest k))
  end.

Definition modulesRun (args : list string) : Prog :=
  GetModules (fun modules =>
    Print ["Available modules:"] (printModules modules Return)).

Definition modulesCmd (p : nat) : cobra.Command :=
  {| cobra.ptr := p; cobra.Use := "modules";
     cobra.Short := "List available modules";
     cobra.Long := ""; cobra.Aliases := []; cobra.Args := cobra.NoValidator;
     cobra.Run := modulesRun |}.

(** The [Run] of the enable command.  [args[0]] of an empty slice is a
    run-time panic, which ends the process with status 2; cobra calls
    [Run] with one argument ([ExactArgs(1)]). *)
Definition enableRun (args : list string) : Prog :=
  match args with
  | [] => Exit 2
  | moduleName :: _ =>
      EnableModule moduleName (fun err =>
        match err with
        | Some e => Print ["Error: " +:+ e] Return
        | None => Print ["Module '" +:+ moduleName +:+ "' enabled"] Return
        end)
  end.

Definition enableCmd (p : nat) : cobra.Command :=
  {| cobra.ptr := p; cobra.Use := "enable [module]";
     cobra.Short := "Enable a module";
     cobra.Long := ""; cobra.Aliases := []; cobra.Args := cobra.ExactArgs 1;
     cobra.Run := enableRun |}.

Definition disableRun (args : list string) : Prog :=
  match args with
  | [] => Exit 2
  | moduleName :: _ =>
      DisableModule moduleName (fun err =>
        match err with
        | Some e => Print ["Error: " +:+ e] Return
        | None => Print ["Module '" +:+ moduleName +:+ "' disabled"] Return
        end)
  end.

Definition disableCmd (p : nat) : cobra.Command :=
  {| cobra.ptr := p; cobra.Use := "disable [module]";
     cobra.Short := "Disable a module";
     cobra.Long := ""; cobra.Aliases := []; cobra.Args := cobra.ExactArgs 1;
     cobra.Run := disableRun |}.

(** [Module.GetCommands]: four fresh commands, at the addresses [p],
    [p+1], [p+2] and [p+3]. *)
Definition GetCommands (p : nat) : list cobra.Command :=
  [exitCmd p; modulesCmd (p + 1); enableCmd (p + 2); disableCmd (p + 3)].

(** [Module.Initialize]: keeps the handle and calls [InitializeHelp],
    which installs the help function [helpFunc] below on the root
    command. *)
Definition Initialize : Prog := SetHelpFunc Return.

(** [core.New()], with the address of its first command. *)
Definition New (p : nat) : module.CommandModule :=
  {| module.Name := Name;
     module.GetCommands := GetCommands p;
     module.Initialize := Initialize |}.

(** *** The help function installed by [InitializeHelp] *)

(** What the help function shows. *)
Inductive HelpOutput : Type :=
| Printed (lines : list string)
| Default.

(** The inner loops of the first branch: for every command of the
    module, the first command of the root of that name, if any. *)
Definition lookupByName (root : list cobra.Command) (command : cobra.Command)
  : option cobra.Command :=
  List.find (fun rootCmd => String.eqb (cobra.Name rootCmd) (cobra.Name command))
            root.

Definition cmdList (root commands : list cobra.Command)
  : list cobra.Command :=
  omap (lookupByName root) commands.

(** The map [modules] after the first loop: one entry per enabled
    module of [GetModuleCommands()]. *)
Definition gather (v : View) : gmap string (list cobra.Command) :=
  map_imap (fun moduleName commands =>
              if ModuleEnabled v moduleName
              then Some (cmdList (RootCommands v) commands)
              else None)
           (ModuleCommands v).

(** The special case: the help command goes to the group of core. *)
Definition withHelp (v : View) (modules : gmap string (list cobra.Command))
  : gmap string (list cobra.Command) :=
  match List.find (fun rootCmd => String.eqb (cobra.Name rootCmd) "help")
                  (RootCommands v) with
  | Some rootCmd =>
      <["core" := default [] (modules !! "core") ++ [rootCmd]]> modules
  | None => modules
  end.

Definition groups (v : View) : gmap string (list cobra.Command) :=
  withHelp v (gather v).

(** The groups shown, in the order of [GetEnabledModules()]: a module
    without an entry, or with an empty one, is passed over. *)
Definition shown (v : View) : list (string * list cobra.Command) :=
  omap (fun moduleName =>
          match groups v !! moduleName with
          | Some (c :: cmds) => Some (moduleName, c :: cmds)
          | _ => None
          end)
       (EnabledModules v).

Definition renderCommand (cmd : cobra.Command) : string :=
  "  " +:+ gostrings.padRight 15 (cobra.Name cmd) +:+ " " +:+ cobra.Short cmd.

Definition renderGroup (g : string * list cobra.Command) : list string :=
  [""; "[" +:+ g.1 +:+ "]"] ++ map renderCommand g.2.

(** The list of the disabled modules, in the order of [GetModules()]. *)
Definition disabled (v : View) : list string :=
  filter (fun moduleName => ModuleEnabled v moduleName = false) (Modules v).

Definition renderDisabled (v : View) : list string :=
  match disabled v with
  | [] => []
  | names => ["";  "Disabled modules:"] ++ map (fun n => "  " +:+ n) names
  end.

(** The first branch: the commands by module. *)
Definition moduleHelp (v : View) : list string :=
  ["Available commands:"]
    ++ concat (map renderGroup (shown v))
    ++ renderDisabled v.

(** The second branch: help on one command. *)
Definition matches (cmdName : string) (subCmd : cobra.Command) : bool :=
  String.eqb (cobra.Name subCmd) cmdName
  || String.eqb (cobra.NameAndAliases subCmd) cmdName.

Definition renderDetail (subCmd : cobra.Command) : list string :=
  ["Command: " +:+ cobra.Name subCmd; "Usage: " +:+ cobra.Use subCmd]
    ++ (if String.eqb (cobra.Short subCmd) "" then []
        else [""; cobra.Short subCmd])
    ++ (if String.eqb (cobra.Long subCmd) "" then []
        else [""; cobra.Long subCmd])
    ++ (match cobra.Aliases subCmd with
        | [] => []
        | aliases => [""; "Aliases: " +:+ gostrings.Join aliases ", "]
        end).

Definition commandHelp (v : View) (cmdName : string) : list string :=
  match List.find (matches cmdName) (RootCommands v) with
  | Some subCmd => renderDetail subCmd
  | None => ["Unknown command: " +:+ cmdName]
  end.

(** The function given to [SetHelpFunc]: [onRoot] says whether [cmd] is
    the root command. *)
Definition helpFunc (v : View) (onRoot : bool) (args : list string)
  : HelpOutput :=
  match args with
  | [] => if onRoot then Printed (moduleHelp v) else Default
  | cmdName :: _ => Printed (commandHelp v cmdName)
  end.

End core.

(** ** Package shell *)

Module shell.

Import shellapi.

Record Shell : Type := {
  rootCmd : cobra.RootCommand;
  rl : readline.Instance;
  currentPrompt : string;
  commandModules : list module.CommandModule;
  banner : string;
  enabledModules : gmap string bool;
  moduleCommands : gmap string (list cobra.Command);
  State : gmap string Value
}.

(** Assignments to the fields of the struct. *)
Definition setRootCmd (r : cobra.RootCommand) (s : Shell) : Shell :=
  {| rootCmd := r; rl := rl s; currentPrompt := currentPrompt s;
     commandModules := commandModules s; banner := banner s;
     enabledModules := enabledModules s;
     moduleCommands := moduleCommands s; State := State s |}.

Definition setRl (r : readline.Instance) (s : Shell) : Shell :=
  {| rootCmd := rootCmd s; rl := r; currentPrompt := currentPrompt s;
     commandModules := commandModules s; banner := banner s;
     enabledModules := enabledModules s;
     moduleCommands := moduleCommands s; State := State s |}.

Definition setCurrentPrompt (p : string) (s : Shell) : Shell :=
  {| rootCmd := rootCmd s; rl := rl s; currentPrompt := p;
     commandModules := commandModules s; banner := banner s;
     enabledModules := enabledModules s;
     moduleCommands := moduleCommands s; State := State s |}.

Definition setCommandModules (ms : list module.CommandModule) (s : Shell)
  : Shell :=
  {| rootCmd := rootCmd s; rl := rl s; currentPrompt := currentPrompt s;
     commandModules := ms; banner := banner s;
     enabledModules := enabledModules s;
     moduleCommands := moduleCommands s; State := State s |}.

Definition setEnabledModules (e : gmap string bool) (s : Shell) : Shell :=
  {| rootCmd := rootCmd s; rl := rl s; currentPrompt := currentPrompt s;
     commandModules := commandModules s; banner := banner s;
     enabledModules := e;
     moduleCommands := moduleCommands s; State := State s |}.

Definition setModuleCommands (mc : gmap string (list cobra.Command))
  (s : Shell) : Shell :=
  {| rootCmd := rootCmd s; rl := rl s; currentPrompt := currentPrompt s;
     commandModules := commandModules s; banner := banner s;
     enabledModules := enabledModules s;
     moduleCommands := mc; State := State s |}.

Definition setState (st : gmap string Value) (s : Shell) : Shell :=
  {| rootCmd := rootCmd s; rl := rl s; currentPrompt := currentPrompt s;
     commandModules := commandModules s; banner := banner s;
     enabledModules := enabledModules s;
     moduleCommands := moduleCommands s; State := st |}.

(** [s.enabledModules[name]] and [s.moduleCommands[name]]: a key that
    is missing reads as the zero value. *)
Definition enabledAt (s : Shell) (name : string) : bool :=
  default false (enabledModules s !! name).

Definition commandsAt (s : Shell) (name : string) : list cobra.Command :=
  default [] (moduleCommands s !! name).

(** [for _, cmd := range commands { s.rootCmd.AddCommand(cmd) }] and
    the same loop with [RemoveCommand]. *)
Definition addCommands (cmds : list cobra.Command) (r : cobra.RootCommand)
  : cobra.RootCommand :=
  foldl (fun r cmd => cobra.AddCommand cmd r) r cmds.

Definition removeCommands (cmds : list cobra.Command)
  (r : cobra.RootCommand) : cobra.RootCommand :=
  foldl (fun r cmd => cobra.RemoveCommand cmd r) r cmds.

(** [Shell.updateCompleter]. *)
Definition updateCompleter (s : Shell) : Shell :=
  let '(r, cmds) := cobra.Commands (rootCmd s) in
  setRl (readline.SetAutoComplete (map cobra.Name cmds) (rl s))
        (setRootCmd r s).

(** [Shell.SetPrompt] and [Shell.GetPrompt]. *)
Definition SetPrompt (s : Shell) (prompt : string) : Shell :=
  let p := prompt +:+ " " in
  setRl (readline.SetPrompt p (rl s)) (setCurrentPrompt p s).

Definition GetPrompt (s : Shell) : string :=
  gostrings.TrimSpace (currentPrompt s).

(** [Shell.SetState] and [Shell.GetState], one call at a time. *)
Definition SetState (s : Shell) (key : string) (value : Value) : Shell :=
  setState (<[key := value]> (State s)) s.

Definition GetState (s : Shell) (key : string) : Value * bool :=
  match State s !! key with
  | Some val => (val, true)
  | None => (VNil, false)
  end.

(** [Shell.PrintAlert]. *)
Definition PrintAlert (s : Shell) (message : string) : Shell :=
  setRl (readline.Write (message +:+ String (ascii_of_nat 10) "") (rl s)) s.

(** [Shell.SetHistoryFile]. *)
Definition SetHistoryFile (s : Shell) (path : string)
  : Shell * option error :=
  (setRl (readline.SetHistoryPath path (rl s)) s, None).

(** The loop of [EnableModule] and [DisableModule] that sets [found]. *)
Definition found (s : Shell) (moduleName : string) : bool :=
  existsb (fun m => String.eqb (module.Name m) moduleName)
          (commandModules s).

Definition ModuleNotFound (moduleName : string) : error :=
  "module not found: " +:+ moduleName.

Definition ProtectedModule : error := "cannot disable core module".

(** [Shell.EnableModule]. *)
Definition EnableModule (s : Shell) (moduleName : string)
  : Shell * option error :=
  if negb (found s moduleName) then (s, Some (ModuleNotFound moduleName))
  else if enabledAt s moduleName then (s, None)
  else
    let s1 := setEnabledModules (<[moduleName := true]> (enabledModules s)) s in
    let s2 := setRootCmd (addCommands (commandsAt s1 moduleName) (rootCmd s1)) s1 in
    (updateCompleter s2, None).

(** [Shell.DisableModule]. *)
Definition DisableModule (s : Shell) (moduleName : string)
  : Shell * option error :=
  if String.eqb moduleName "core" then (s, Some ProtectedModule)
  else if negb (found s moduleName) then (s, Some (ModuleNotFound moduleName))
  else if negb (enabledAt s moduleName) then (s, None)
  else
    let s1 := setEnabledModules (<[moduleName := false]> (enabledModules s)) s in
    let s2 := setRootCmd (removeCommands (commandsAt s1 moduleName) (rootCmd s1)) s1 in
    (updateCompleter s2, None).

(** [Shell.IsModuleEnabled], [Shell.GetModules], [Shell.GetRootCmd],
    [Shell.GetModuleCommands]. *)
Definition IsModuleEnabled (s : Shell) (moduleName : string) : bool :=
  enabledAt s moduleName.

Definition GetModules (s : Shell) : list string :=
  map module.Name (commandModules s).

Definition GetRootCmd (s : Shell) : cobra.RootCommand := rootCmd s.

Definition GetModuleCommands (s : Shell)
  : gmap string (list cobra.Command) :=
  moduleCommands s.

(** [Shell.GetEnabledModules] ranges over the map [enabledModules].
    Go leaves the order of such a loop open: [order] is the order in
    which this run of the loop meets the entries, and [rangeOrder] says
    that every entry is met once. *)
Definition rangeOrder (s : Shell) (order : list (string * bool)) : Prop :=
  order ≡ₚ map_to_list (enabledModules s).

Definition GetEnabledModules (s : Shell) (order : list (string * bool))
  : list string :=
  (filter (fun kv => kv.2 = true) order).*1.

(** The process: the shell and what [fmt] has printed to the standard
    output, line by line. *)
Record Proc : Type := {
  sh : Shell;
  stdout : list string
}.

Definition setSh (s : Shell) (p : Proc) : Proc :=
  {| sh := s; stdout := stdout p |}.

(** A piece of code has returned, or has ended the process. *)
Inductive Result : Type :=
| Running (p : Proc)
| Exited (code : Z) (p : Proc).

Definition procOf (r : Result) : Proc :=
  match r with
  | Running p => p
  | Exited _ p => p
  end.

(** The shell as the implementation of [ShellAPI]: the code of a
    module run against it. *)
Fixpoint exec (c : Prog) (p : Proc) : Result :=
  match c with
  | Return => Running p
  | Exit code => Exited code p
  | Print lines k => exec k {| sh := sh p; stdout := stdout p ++ lines |}
  | shellapi.EnableModule n k =>
      let '(s, err) := EnableModule (sh p) n in exec (k err) (setSh s p)
  | shellapi.DisableModule n k =>
      let '(s, err) := DisableModule (sh p) n in exec (k err) (setSh s p)
  | shellapi.IsModuleEnabled n k => exec (k (IsModuleEnabled (sh p) n)) p
  | shellapi.GetModules k => exec (k (GetModules (sh p))) p
  | CommandNames k =>
      let '(r, cmds) := cobra.Commands (rootCmd (sh p)) in
      exec (k (map cobra.Name cmds)) (setSh (setRootCmd r (sh p)) p)
  | SetHelpFunc k =>
      exec k (setSh (setRootCmd (cobra.SetHelpFunc cobra.ModuleHelp
                                   (rootCmd (sh p))) (sh p)) p)
  | shellapi.SetState key v k => exec k (setSh (SetState (sh p) key v) p)
  | shellapi.GetState key k => exec (k (GetState (sh p) key)) p
  | shellapi.SetPrompt prompt k => exec k (setSh (SetPrompt (sh p) prompt) p)
  | shellapi.GetPrompt k => exec (k (GetPrompt (sh p))) p
  | shellapi.PrintAlert msg k => exec k (setSh (PrintAlert (sh p) msg) p)
  end.

(** The statements of [RegisterModule] before the call of
    [module.Initialize(s)]. *)
Definition attach (m : module.CommandModule) (s : Shell) : Shell :=
  let moduleName := module.Name m in
  let s1 := setCommandModules (commandModules s ++ [m]) s in
  let commands := module.GetCommands m in
  let s2 := setModuleCommands (<[moduleName := commands]> (moduleCommands s1)) s1 in
  let s3 := setEnabledModules (<[moduleName := true]> (enabledModules s2)) s2 in
  setRootCmd (addCommands commands (rootCmd s3)) s3.

(** [Shell.RegisterModule]. *)
Definition RegisterModule (m : module.CommandModule) (p : Proc) : Result :=
  match exec (module.Initialize m) (setSh (attach m (sh p)) p) with
  | Running p' => Running (setSh (updateCompleter (sh p')) p')
  | Exited code p' => Exited code p'
  end.

(** [cmd.Run = ...] on the object at [p]: every slice that holds the
    pointer sees the new [Run]. *)
Definition assignRun (p : nat) (run : list string -> Prog)
  (l : list cobra.Command) : list cobra.Command :=
  map (fun c => if decide (cobra.ptr c = p) then cobra.withRun run c else c) l.

Definition assign (p : nat) (run : list string -> Prog) (s : Shell) : Shell :=
  let r := rootCmd s in
  setModuleCommands (assignRun p run <$> moduleCommands s)
    (setRootCmd {| cobra.RootUse := cobra.RootUse r;
                   cobra.commands := assignRun p run (cobra.commands r);
                   cobra.commandsAreSorted := cobra.commandsAreSorted r;
                   cobra.helpFunc := cobra.helpFunc r |} s).

(** [Shell.OnExit]. *)
Definition OnExit (s : Shell) (fn : Prog) : Shell :=
  let '(r, cmds) := cobra.Commands (rootCmd s) in
  let s1 := setRootCmd r s in
  match List.find (fun cmd => String.eqb (cobra.Name cmd) "exit") cmds with
  | Some cmd =>
      let originalRun := cobra.Run cmd in
      assign (cobra.ptr cmd) (fun args => seq fn (originalRun args)) s1
  | None => s1
  end.

(** The call [cmd.Run(cmd, args)] that [rootCmd.Execute()] makes when
    the first word of the line is [word] and the other words are
    [args], none of them a flag: cobra's [Find] takes the first command
    of the root that answers to [word], and its validator sees [args].
    [None]: no [Run] is called (no command answers, or the validator
    refuses), and cobra returns an error. *)
Definition runCommand (word : string) (args : list string) (p : Proc)
  : option Result :=
  match cobra.findNext word (rootCmd (sh p)) with
  | None => None
  | Some cmd =>
      match cobra.Args cmd with
      | cobra.ExactArgs n =>
          if decide (length args = n) then Some (exec (cobra.Run cmd args) p)
          else None
      | cobra.NoValidator => Some (exec (cobra.Run cmd args) p)
      end
  end.

(** The struct [NewShell] builds before it registers the core module,
    with the instance [readline.NewEx] has returned. *)
Definition initial (rootCmdName banner : string) : Shell :=
  let rootCmdName := if String.eqb rootCmdName "" then "shell" else rootCmdName in
  {| rootCmd := {| cobra.RootUse := rootCmdName;
                   cobra.commands := [];
                   cobra.commandsAreSorted := false;
                   cobra.helpFunc := cobra.DefaultHelp |};
     rl := {| readline.Prompt := "> ";
              readline.HistoryFile := "/tmp/readline.tmp";
              readline.AutoComplete := [];
              readline.written := [] |};
     currentPrompt := "> ";
     commandModules := [];
     banner := banner;
     enabledModules := ∅;
     moduleCommands := ∅;
     State := ∅ |}.

(** [NewShell]: [rlErr] is the error of [readline.NewEx], if any, and
    the commands of the core module are allocated from address 0. *)
Definition NewShell (rootCmdName banner : string) (rlErr : option error)
  : Result + error :=
  match rlErr with
  | Some err => inr err
  | None =>
      inl (RegisterModule (core.New 0)
             {| sh := initial rootCmdName banner; stdout := [] |})
  end.

(** The view of the shell the help function works on. *)
Definition view (s : Shell) (order : list (string * bool)) : core.View :=
  {| core.RootCommands := (cobra.Commands (rootCmd s)).2;
     core.ModuleCommands := GetModuleCommands s;
     core.ModuleEnabled := IsModuleEnabled s;
     core.EnabledModules := GetEnabledModules s order;
     core.Modules := GetModules s |}.

End shell.

(** ** The example application: the timer module *)

Module example.

Import shellapi.

(** The clock of the example stands still: [time.Now()] returns [now]
    whenever it is read, and the time elapsed since then is 0s. *)

(** [TimerModule.Initialize]. *)
Definition Initialize (now : Z) : Prog :=
  SetState "start_time" (VTime now) Return.

(** The [Run] of the time command: [elapsed] is the text of
    [time.Since(startTime).Round(time.Second)].  A value that is not a
    [time.Time] fails the type assertion, a run-time panic. *)
Definition timeRun (elapsed : string) (args : list string) : Prog :=
  GetState "start_time" (fun r =>
    match r with
    | (_, false) => Print ["Start time not found in state"] Return
    | (VTime _, true) =>
        Print ["Shell has been running for " +:+ elapsed]
              (SetPrompt ("(" +:+ elapsed +:+ ")") Return)
    | (_, true) => Exit 2
    end).

Definition timeCmd (p : nat) (elapsed : string) : cobra.Command :=
  {| cobra.ptr := p; cobra.Use := "time";
     cobra.Short := "Show elapsed time since shell started";
     cobra.Long := ""; cobra.Aliases := []; cobra.Args := cobra.NoValidator;
     cobra.Run := timeRun elapsed |}.

Definition resetRun (now : Z) (args : list string) : Prog :=
  SetState "start_time" (VTime now)
    (Print ["Timer reset"] (SetPrompt ">" Return)).

Definition resetCmd (p : nat) (now : Z) : cobra.Command :=
  {| cobra.ptr := p; cobra.Use := "reset"; cobra.Short := "Reset the timer";
     cobra.Long := ""; cobra.Aliases := []; cobra.Args := cobra.NoValidator;
     cobra.Run := resetRun now |}.

(** [TimerModule.GetCommands]: two fresh commands, at [p] and [p+1]. *)
Definition GetCommands (p : nat) (now : Z) : list cobra.Command :=
  [timeCmd p "0s"; resetCmd (p + 1) now].

(** [NewTimerModule()], with the address of its first command. *)
Definition NewTimerModule (p : nat) (now : Z) : module.CommandModule :=
  {| module.Name := "timer";
     module.GetCommands := GetCommands p now;
     module.Initialize := Initialize now |}.

Definition banner : string :=
  "Welcome to the Timer Demo Shell! Type 'help' for available commands.".

(** The shell [NewShell] returns to [main] when [readline.NewEx] has
    given no error, and the shell of [main] once the timer module is
    registered. *)
Definition newShell : shell.Proc :=
  shell.procOf
    (shell.RegisterModule (core.New 0)
       {| shell.sh := shell.initial "timer-demo" banner; shell.stdout := [] |}).

Definition timerShell : shell.Result :=
  shell.RegisterModule (NewTimerModule 4 0) newShell.

End example.

(** ** Sequences of calls on a shell *)

Module trace.

Import shellapi.

(** A call on the shell from the application or from a module; [CallRun]
    is module code that runs (the body of the [Run] of a command, of an
    exit handler), without what [rootCmd.Execute()] does before it
    calls a [Run]. *)
Inductive Call : Type :=
| CallRegisterModule (m : module.CommandModule)
| CallEnableModule (moduleName : string)
| CallDisableModule (moduleName : string)
| CallSetState (key : string) (value : Value)
| CallSetPrompt (prompt : string)
| CallPrintAlert (message : string)
| CallOnExit (fn : Prog)
| CallRun (c : Prog).

Definition step (call : Call) (p : shell.Proc) : shell.Result :=
  match call with
  | CallRegisterModule m => shell.RegisterModule m p
  | CallEnableModule n =>
      shell.Running (shell.setSh (shell.EnableModule (shell.sh p) n).1 p)
  | CallDisableModule n =>
      shell.Running (shell.setSh (shell.DisableModule (shell.sh p) n).1 p)
  | CallSetState key v =>
      shell.Running (shell.setSh (shell.SetState (shell.sh p) key v) p)
  | CallSetPrompt prompt =>
      shell.Running (shell.setSh (shell.SetPrompt (shell.sh p) prompt) p)
  | CallPrintAlert msg =>
      shell.Running (shell.setSh (shell.PrintAlert (shell.sh p) msg) p)
  | CallOnExit fn =>
      shell.Running (shell.setSh (shell.OnExit (shell.sh p) fn) p)
  | CallRun c => shell.exec c p
  end.

(** The calls one after the other, as long as the process runs. *)
Fixpoint run (calls : list Call) (p : shell.Proc) : shell.Result :=
  match calls with
  | [] => shell.Running p
  | call :: rest =>
      match step call p with
      | shell.Running p' => run rest p'
      | shell.Exited code p' => shell.Exited code p'
      end
  end.

(** The shell the calls leave behind. *)
Definition after (calls : list Call) (s : shell.Shell) : shell.Shell :=
  shell.sh (shell.procOf (run calls {| shell.sh := s; shell.stdout := [] |})).

(** The modules passed to [RegisterModule], in the order of the calls. *)
Definition registered (calls : list Call) : list module.CommandModule :=
  omap (fun call => match call with
                    | CallRegisterModule m => Some m
                    | _ => None
                    end) calls.

(** A call of [RegisterModule], [EnableModule] or [DisableModule]. *)
Definition registryCall (call : Call) : bool :=
  match call with
  | CallRegisterModule _ | CallEnableModule _ | CallDisableModule _ => true
  | _ => false
  end.

(** A call of a method of the shell itself: no command is run. *)
Definition methodCall (call : Call) : bool :=
  match call with
  | CallRun _ => false
  | _ => true
  end.

(** The code [c] never calls [SetState(key, _)]. *)
Fixpoint leaves (key : string) (c : Prog) : Prop :=
  match c with
  | Return | Exit _ => True
  | Print _ k | SetHelpFunc k | SetPrompt _ k | PrintAlert _ k => leaves key k
  | EnableModule _ k | DisableModule _ k => forall err, leaves key (k err)
  | IsModuleEnabled _ k => forall b, leaves key (k b)
  | GetModules k | CommandNames k => forall names, leaves key (k names)
  | SetState key' _ k => key' <> key /\ leaves key k
  | GetState _ k => forall r, leaves key (k r)
  | GetPrompt k => forall prompt, leaves key (k prompt)
  end.

(** The call is no [SetState(key, _)] and runs none. *)
Definition callLeaves (key : string) (call : Call) : Prop :=
  match call with
  | CallSetState key' _ => key' <> key
  | CallRegisterModule m => leaves key (module.Initialize m)
  | CallRun c => leaves key c
  | _ => True
  end.

End trace.

(** ** The properties the registry and the help function are to have *)

Module registry.

(** The command namespace: the commands registered on the root. *)
Definition namespace (s : shell.Shell) : list cobra.Command :=
  cobra.commands (shell.rootCmd s).

(** The modules whose entry in the enablement table is true. *)
Definition enabled (s : shell.Shell) : list module.CommandModule :=
  filter (fun m => shell.IsModuleEnabled s (module.Name m) = true)
         (shell.commandModules s).

(** The namespace is the union of the descriptors of the enabled
    modules, each descriptor once. *)
Definition consistent (s : shell.Shell) : Prop :=
  NoDup (namespace s)
  /\ forall c, c ∈ namespace s
               <-> exists m, m ∈ enabled s /\ c ∈ module.GetCommands m.

(** The names of the modules and the addresses of their commands. *)
Definition names (ms : list module.CommandModule) : list string :=
  map module.Name ms.

Definition descriptors (ms : list module.CommandModule) : list nat :=
  map cobra.ptr (concat (map module.GetCommands ms)).

(** The modules of [ms] that the table [e] has as enabled, and their
    commands. *)
Definition enabledIn (e : gmap string bool) (ms : list module.CommandModule)
  : list module.CommandModule :=
  filter (fun m => default false (e !! module.Name m) = true) ms.

Definition commandsOf (ms : list module.CommandModule)
  : list cobra.Command :=
  concat (map module.GetCommands ms).

(** The bookkeeping of a shell whose modules have names of their own
    and commands of their own. *)
Record wellFormed (s : shell.Shell) : Prop := {
  wf_names : NoDup (names (shell.commandModules s));
  wf_descriptors : NoDup (descriptors (shell.commandModules s));
  wf_commands :
    forall m, m ∈ shell.commandModules s ->
              shell.moduleCommands s !! module.Name m
              = Some (module.GetCommands m);
  wf_namespace :
    namespace s
    ≡ₚ commandsOf (enabledIn (shell.enabledModules s) (shell.commandModules s))
}.

(** The timer module registered a second time, and then disabled. *)
Definition timerTwice : list trace.Call :=
  [trace.CallRegisterModule (core.New 0);
   trace.CallRegisterModule (example.NewTimerModule 4 0);
   trace.CallRegisterModule (example.NewTimerModule 6 0);
   trace.CallDisableModule "timer"].

(** Two modules that hand out the same command object. *)
Definition sharing (name : string) : module.CommandModule :=
  {| module.Name := name;
     module.GetCommands := [example.timeCmd 4 "0s"];
     module.Initialize := shellapi.Return |}.

Definition sharedCommand : list trace.Call :=
  [trace.CallRegisterModule (core.New 0);
   trace.CallRegisterModule (sharing "a");
   trace.CallRegisterModule (sharing "b")].

(** The timer module registered once, disabled and enabled again. *)
Definition timerOffOn : list trace.Call :=
  [trace.CallRegisterModule (core.New 0);
   trace.CallRegisterModule (example.NewTimerModule 4 0);
   trace.CallDisableModule "timer";
   trace.CallEnableModule "timer"].

End registry.

Module exithooks.

Import shellapi.

(** The command answers to the word: by its name or by an alias. *)
Definition answers (word : string) (cmd : cobra.Command) : bool :=
  String.eqb (cobra.Name cmd) word || cobra.HasAlias cmd word.

(** The exit command of the core module is the one command of the root
    that answers to the word exit. *)
Definition builtinExit (s : shell.Shell) : Prop :=
  exists p, filter (fun cmd => answers "exit" cmd = true)
                   (cobra.commands (shell.rootCmd s)) = [core.exitCmd p].

(** The handlers passed to [OnExit], one call after the other. *)
Definition onExits (s : shell.Shell) (hooks : list Prog) : shell.Shell :=
  foldl shell.OnExit s hooks.

(** Pieces of code one after the other, as long as the process runs. *)
Fixpoint execAll (cs : list Prog) (p : shell.Proc) : shell.Result :=
  match cs with
  | [] => shell.Running p
  | c :: rest =>
      match shell.exec c p with
      | shell.Running p' => execAll rest p'
      | shell.Exited code p' => shell.Exited code p'
      end
  end.

(** The end of the exit command: after the code before it. *)
Definition thenExit (r : shell.Result) : shell.Result :=
  match r with
  | shell.Running p => shell.exec (core.exitRun []) p
  | shell.Exited code p => shell.Exited code p
  end.

(** The exit command runs the handlers in the order of their
    registration, and then what it did before. *)
Definition inRegistrationOrder (s : shell.Shell) (hooks : list Prog)
  (out : list string) : Prop :=
  let p := {| shell.sh := onExits s hooks; shell.stdout := out |} in
  shell.runCommand "exit" [] p = Some (thenExit (execAll hooks p)).

(** Two handlers that leave a trace on the standard output. *)
Definition twoHooks : list Prog :=
  [Print ["first"] Return; Print ["second"] Return].

(** The shell of the example application. *)
Definition timerDemo : shell.Shell :=
  shell.sh (shell.procOf example.timerShell).

End exithooks.

Module help.

(** The headers of the groups of the listing, from top to bottom. *)
Definition groupNames (s : shell.Shell) (order : list (string * bool))
  : list string :=
  (core.shown (shell.view s order)).*1.

(** The enabled modules in the order of their registration. *)
Definition enabledInOrder (s : shell.Shell) : list string :=
  filter (fun n => shell.IsModuleEnabled s n = true) (shell.GetModules s).

(** The module has something to show in the listing. *)
Definition hasGroup (s : shell.Shell) (order : list (string * bool))
  (n : string) : bool :=
  match core.groups (shell.view s order) !! n with
  | Some (_ :: _) => true
  | _ => false
  end.


(** An order in which the loop of [GetEnabledModules] may meet the
    two modules of the example application. *)
Definition timerFirst : list (string * bool) :=
  [("timer", true); ("core", true)].




(** A command with an alias, as a module may register it. *)
Definition aliased (p : nat) : cobra.Command :=
  {| cobra.ptr := p; cobra.Use := "time";
     cobra.Short := "Show elapsed time since shell started";
     cobra.Long := ""; cobra.Aliases := ["t"]; cobra.Args := cobra.NoValidator;
     cobra.Run := example.timeRun "0s" |}.

(** The timer module with that command, and the shell of [main] with
    this module. *)
Definition aliasModule (p : nat) : module.CommandModule :=
  {| module.Name := "timer";
     module.GetCommands := [aliased p; example.resetCmd (p + 1) 0];
     module.Initialize := example.Initialize 0 |}.

Definition aliasShell : shell.Shell :=
  trace.after [trace.CallRegisterModule (core.New 0);
               trace.CallRegisterModule (aliasModule 4)]
              (shell.initial "timer-demo" "").

End help.

(** ** What the bookkeeping of a shell keeps *)

Module tables.

(** A shell on which the timer module alone is registered: its root
    has the commands of the timer and no exit command. *)
Definition timerOnly : shell.Shell :=
  trace.after [trace.CallRegisterModule (example.NewTimerModule 4 0)]
              (shell.initial "timer-demo" "").

(** The enablement table and the table of the commands have an entry
    for the names of the registered modules and for no other name, and
    the entry of core is not false. *)
Definition tracked (s : shell.Shell) : Prop :=
  (forall n, is_Some (shell.enabledModules s !! n) <-> n ∈ shell.GetModules s)
  /\ (forall n, is_Some (shell.moduleCommands s !! n) <-> n ∈ shell.GetModules s)
  /\ shell.enabledModules s !! "core" <> Some false.

(** The words of the completer are the names of the commands of the
    root, in the order of the slice, and [Commands()] returns the slice
    as it is. *)
Definition completed (s : shell.Shell) : Prop :=
  readline.AutoComplete (shell.rl s)
  = map cobra.Name (cobra.commands (shell.rootCmd s))
  /\ (cobra.Commands (shell.rootCmd s)).2 = cobra.commands (shell.rootCmd s).

(** The line of the modules command for one module. *)
Definition moduleLine (s : shell.Shell) (name : string) : string :=
  "  " +:+ gostrings.padRight 15 name +:+ " ["
  +:+ (if shell.IsModuleEnabled s name then "enabled" else "disabled") +:+ "]".

(** The code [c] never calls [DisableModule(name)]. *)
Fixpoint keepsEnabled (name : string) (c : shellapi.Prog) : Prop :=
  match c with
  | shellapi.Return | shellapi.Exit _ => True
  | shellapi.Print _ k | shellapi.SetHelpFunc k | shellapi.SetState _ _ k
  | shellapi.SetPrompt _ k | shellapi.PrintAlert _ k => keepsEnabled name k
  | shellapi.EnableModule _ k => forall err, keepsEnabled name (k err)
  | shellapi.DisableModule n k =>
      n <> name /\ forall err, keepsEnabled name (k err)
  | shellapi.IsModuleEnabled _ k => forall b, keepsEnabled name (k b)
  | shellapi.GetModules k | shellapi.CommandNames k =>
      forall names, keepsEnabled name (k names)
  | shellapi.GetState _ k => forall r, keepsEnabled name (k r)
  | shellapi.GetPrompt k => forall prompt, keepsEnabled name (k prompt)
  end.

(** The line the enable and the disable command print. *)
Definition report (err : option shellapi.error) (ok : string) : string :=
  match err with
  | Some e => "Error: " +:+ e
  | None => ok
  end.

End tables.

(** * Proofs *)

(** ** The fields a method leaves alone *)

Section Frames.

Import shell.

Lemma updateCompleter_commandModules s :
  commandModules (updateCompleter s) = commandModules s.
Proof. unfold updateCompleter. by destruct (cobra.Commands _). Qed.

Lemma updateCompleter_enabledModules s :
  enabledModules (updateCompleter s) = enabledModules s.
Proof. unfold updateCompleter. by destruct (cobra.Commands _). Qed.

Lemma updateCompleter_moduleCommands s :
  moduleCommands (updateCompleter s) = moduleCommands s.
Proof. unfold updateCompleter. by destruct (cobra.Commands _). Qed.

Lemma updateCompleter_State s : State (updateCompleter s) = State s.
Proof. unfold updateCompleter. by destruct (cobra.Commands _). Qed.

Lemma updateCompleter_commands s :
  cobra.commands (rootCmd (updateCompleter s))
  = (cobra.Commands (rootCmd s)).2.
Proof.
  unfold updateCompleter, cobra.Commands.
  by destruct (cobra.commandsAreSorted _).
Qed.

Lemma found_ext s s' n :
  commandModules s' = commandModules s -> found s' n = found s n.
Proof. unfold found. by intros ->. Qed.

Lemma enabledAt_ext s s' n :
  enabledModules s' = enabledModules s -> enabledAt s' n = enabledAt s n.
Proof. unfold enabledAt. by intros ->. Qed.

Lemma found_spec s n :
  found s n = true <-> n ∈ GetModules s.
Proof.
  unfold found, GetModules. rewrite existsb_exists, list_elem_of_fmap.
  split.
  - intros (m & Hm & Heq). apply String.eqb_eq in Heq.
    exists m. split; [done|]. by apply list_elem_of_In.
  - intros (m & -> & Hm). exists m. split; [by apply list_elem_of_In|].
    apply String.eqb_refl.
Qed.

Lemma EnableModule_commandModules s n :
  commandModules (EnableModule s n).1 = commandModules s.
Proof.
  unfold EnableModule.
  destruct (negb _); [done|]. destruct (enabledAt _ _); [done|].
  simpl. by rewrite updateCompleter_commandModules.
Qed.

Lemma DisableModule_commandModules s n :
  commandModules (DisableModule s n).1 = commandModules s.
Proof.
  unfold DisableModule.
  destruct (String.eqb _ _); [done|].
  destruct (negb (found _ _)); [done|]. destruct (negb (enabledAt _ _)); [done|].
  simpl. by rewrite updateCompleter_commandModules.
Qed.

Lemma EnableModule_State s n : State (EnableModule s n).1 = State s.
Proof.
  unfold EnableModule.
  destruct (negb _); [done|]. destruct (enabledAt _ _); [done|].
  simpl. by rewrite updateCompleter_State.
Qed.

Lemma DisableModule_State s n : State (DisableModule s n).1 = State s.
Proof.
  unfold DisableModule.
  destruct (String.eqb _ _); [done|].
  destruct (negb (found _ _)); [done|]. destruct (negb (enabledAt _ _)); [done|].
  simpl. by rewrite updateCompleter_State.
Qed.

End Frames.

(** ** Errors of EnableModule and DisableModule *)

Section Errors.

Import shell.

(** C5: in every state of the shell, [DisableModule("core")] returns
    the error of the protected module and the shell is as before: the
    command namespace, the enablement table and every other field. *)
Theorem DisableModule_core (s : Shell) :
  DisableModule s "core" = (s, Some ProtectedModule).
Proof. reflexivity. Qed.

(** A second call right after the first finds the module enabled (or
    still not registered) and changes nothing. *)
Lemma EnableModule_twice (s : Shell) (n : string) :
  EnableModule (EnableModule s n).1 n = EnableModule s n.
Proof.
  unfold EnableModule at 2 3.
  destruct (found s n) eqn:Hf; simpl.
  - destruct (enabledAt s n) eqn:He; simpl.
    + unfold EnableModule. by rewrite Hf, He.
    + unfold EnableModule at 1.
      replace (found (updateCompleter _) n) with true
        by (rewrite <- Hf; symmetry; apply found_ext;
            by rewrite updateCompleter_commandModules).
      simpl.
      replace (enabledAt (updateCompleter _) n) with true; [done|].
      unfold enabledAt. rewrite updateCompleter_enabledModules. simpl.
      by rewrite lookup_insert_eq.
  - unfold EnableModule. by rewrite Hf.
Qed.

Lemma DisableModule_twice (s : Shell) (n : string) :
  DisableModule (DisableModule s n).1 n = DisableModule s n.
Proof.
  unfold DisableModule at 2 3.
  destruct (String.eqb n "core") eqn:Hc; simpl.
  { unfold DisableModule. by rewrite Hc. }
  destruct (found s n) eqn:Hf; simpl.
  - destruct (enabledAt s n) eqn:He; simpl.
    + unfold DisableModule at 1. rewrite Hc.
      replace (found (updateCompleter _) n) with true
        by (rewrite <- Hf; symmetry; apply found_ext;
            by rewrite updateCompleter_commandModules).
      simpl.
      replace (enabledAt (updateCompleter _) n) with false; [done|].
      unfold enabledAt. rewrite updateCompleter_enabledModules. simpl.
      by rewrite lookup_insert_eq.
    + unfold DisableModule. by rewrite Hc, Hf, He.
  - unfold DisableModule. by rewrite Hc, Hf.
Qed.

(** C7: [EnableModule] and [DisableModule] are idempotent.  For every
    module name (registered or not), a second call right after the
    first returns the same error as the first and leaves the shell the
    first call left: the same enablement table, the same command
    namespace, the same everything. *)
Theorem Enable_Disable_idempotent (s : Shell) (n : string) :
  EnableModule (EnableModule s n).1 n = EnableModule s n
  /\ DisableModule (DisableModule s n).1 n = DisableModule s n.
Proof. split; [apply EnableModule_twice | apply DisableModule_twice]. Qed.

End Errors.

(** ** The command tree *)

Section Cobra.

Lemma insertByName_perm x l : cobra.insertByName x l ≡ₚ x :: l.
Proof.
  induction l as [|y l IH]; simpl; [done|].
  destruct (String.leb _ _); [done|].
  rewrite IH. apply perm_swap.
Qed.

Lemma sortByName_perm l : cobra.sortByName l ≡ₚ l.
Proof.
  induction l as [|x l IH]; simpl; [done|].
  rewrite insertByName_perm. by rewrite IH.
Qed.

Lemma Commands_perm r : (cobra.Commands r).2 ≡ₚ cobra.commands r.
Proof.
  unfold cobra.Commands. destruct (cobra.commandsAreSorted r); simpl; [done|].
  apply sortByName_perm.
Qed.

Lemma Commands_commands r :
  cobra.commands (cobra.Commands r).1 = (cobra.Commands r).2.
Proof. unfold cobra.Commands. by destruct (cobra.commandsAreSorted r). Qed.

Lemma Commands_helpFunc r :
  cobra.helpFunc (cobra.Commands r).1 = cobra.helpFunc r.
Proof. unfold cobra.Commands. by destruct (cobra.commandsAreSorted r). Qed.

Lemma addCommands_commands cmds r :
  cobra.commands (shell.addCommands cmds r) = cobra.commands r ++ cmds.
Proof.
  revert r. induction cmds as [|x cmds IH]; intros r; simpl.
  - by rewrite app_nil_r.
  - rewrite IH. simpl. by rewrite <- app_assoc.
Qed.

Lemma filter_all {A} (P : A -> Prop) `{forall x, Decision (P x)} (l : list A) :
  (forall x, x ∈ l -> P x) -> filter P l = l.
Proof.
  induction l as [|x l IH]; intros Hall; [done|].
  rewrite filter_cons_True by (apply Hall; left).
  f_equal. apply IH. intros y Hy. apply Hall. by right.
Qed.

Lemma filter_none {A} (P : A -> Prop) `{forall x, Decision (P x)} (l : list A) :
  (forall x, x ∈ l -> ~ P x) -> filter P l = [].
Proof.
  induction l as [|x l IH]; intros Hall; [done|].
  rewrite filter_cons_False by (apply Hall; left).
  apply IH. intros y Hy. apply Hall. by right.
Qed.

Lemma filter_ext_elem {A} (P Q : A -> Prop)
  `{forall x, Decision (P x)} `{forall x, Decision (Q x)} (l : list A) :
  (forall x, x ∈ l -> P x <-> Q x) -> filter P l = filter Q l.
Proof.
  induction l as [|x l IH]; intros Hall; [done|].
  rewrite !filter_cons.
  assert (Hx : P x <-> Q x) by (apply Hall; left).
  rewrite IH by (intros y Hy; apply Hall; by right).
  destruct (decide (P x)), (decide (Q x)); tauto.
Qed.

Lemma removeCommands_commands cmds r :
  cobra.commands (shell.removeCommands cmds r)
  = filter (fun y => cobra.ptr y ∉ map cobra.ptr cmds) (cobra.commands r).
Proof.
  revert r. induction cmds as [|x cmds IH]; intros r; simpl.
  - symmetry. apply filter_all. intros y _. apply not_elem_of_nil.
  - rewrite IH. simpl. rewrite list_filter_filter.
    apply list_filter_iff. intros y. rewrite not_elem_of_cons. tauto.
Qed.

End Cobra.

(** ** RegisterModule and the initialization hook *)

Section Hook.

Import shell.

Lemma exec_CommandNames k p :
  exec (shellapi.CommandNames k) p
  = exec (k (map cobra.Name (cobra.Commands (rootCmd (sh p))).2))
         (setSh (setRootCmd (cobra.Commands (rootCmd (sh p))).1 (sh p)) p).
Proof. simpl. by destruct (cobra.Commands _). Qed.

(** C9: [RegisterModule] runs the module's [Initialize] on a shell in
    which the module is in the list of modules, its commands are
    recorded under its name, it is enabled and all its commands are on
    the root command; the completer is updated after the hook.  So a
    hook that asks [IsModuleEnabled] for its own module is told true,
    and one that lists the commands of the root finds its own. *)
Theorem RegisterModule_hook_sees_commands
  (m : module.CommandModule) (p : Proc) :
  let s0 := attach m (sh p) in
  RegisterModule m p
  = match exec (module.Initialize m) (setSh s0 p) with
    | Running p' => Running (setSh (updateCompleter (sh p')) p')
    | Exited code p' => Exited code p'
    end
  /\ IsModuleEnabled s0 (module.Name m) = true
  /\ (forall c, c ∈ module.GetCommands m -> c ∈ cobra.commands (GetRootCmd s0))
  /\ GetModuleCommands s0 !! module.Name m = Some (module.GetCommands m)
  /\ module.Name m ∈ GetModules s0
  /\ (forall k, exec (shellapi.IsModuleEnabled (module.Name m) k) (setSh s0 p)
                = exec (k true) (setSh s0 p))
  /\ (forall k, exists names p',
         exec (shellapi.CommandNames k) (setSh s0 p) = exec (k names) p'
         /\ forall c, c ∈ module.GetCommands m -> cobra.Name c ∈ names).
Proof.
  intros s0.
  assert (Hen : IsModuleEnabled s0 (module.Name m) = true).
  { unfold IsModuleEnabled, enabledAt, s0, attach. simpl.
    by rewrite lookup_insert_eq. }
  assert (Hin : forall c, c ∈ module.GetCommands m
                          -> c ∈ cobra.commands (GetRootCmd s0)).
  { intros c Hc. unfold GetRootCmd, s0, attach. simpl.
    rewrite addCommands_commands. apply elem_of_app. by right. }
  repeat split; try done.
  - unfold GetModuleCommands, s0, attach. simpl. by rewrite lookup_insert_eq.
  - unfold GetModules, s0, attach. simpl. rewrite map_app.
    apply elem_of_app. right. simpl. apply list_elem_of_singleton. done.
  - intros k. simpl. by rewrite Hen.
  - intros k. eexists _, _. split; [apply exec_CommandNames|].
    intros c Hcin. apply list_elem_of_fmap. exists c. split; [done|].
    rewrite Commands_perm. by apply Hin.
Qed.

End Hook.

(** ** The prompt *)

Section Prompt.

Import gostrings.

Lemma cutPrefix_length w l r :
  cutPrefix w l = Some r -> length l = (length w + length r)%nat.
Proof.
  revert l. induction w as [|a w IH]; intros [|b l]; simpl; try done.
  - by intros [= <-].
  - by intros [= <-].
  - destruct (Ascii.eqb a b); [|done]. intros H. by rewrite (IH _ H).
Qed.

Lemma cutAny_shorter pats l r :
  Forall (fun w => w <> []) pats ->
  cutAny pats l = Some r -> (length r < length l)%nat.
Proof.
  induction 1 as [|w pats Hw _ IH]; simpl; [done|].
  destruct (cutPrefix w l) as [r'|] eqn:Hcut; [|done].
  intros [= <-]. apply cutPrefix_length in Hcut.
  destruct w; [done|]. simpl in Hcut. lia.
Qed.

Lemma trimN_fuel pats n m l :
  Forall (fun w => w <> []) pats ->
  (length l <= n)%nat -> (length l <= m)%nat ->
  trimN pats n l = trimN pats m l.
Proof.
  intros Hne. revert m l.
  induction n as [|n IH]; intros [|m] l Hn Hm; simpl; try done.
  - destruct (cutAny pats l) as [r|] eqn:Hcut; [|done].
    apply (cutAny_shorter _ _ _ Hne) in Hcut. lia.
  - destruct (cutAny pats l) as [r|] eqn:Hcut; [|done].
    apply (cutAny_shorter _ _ _ Hne) in Hcut. lia.
  - destruct (cutAny pats l) as [r|] eqn:Hcut; [|done].
    pose proof (cutAny_shorter _ _ _ Hne Hcut). apply IH; lia.
Qed.

Lemma trimN_cut pats l r :
  Forall (fun w => w <> []) pats ->
  cutAny pats l = Some r ->
  trimN pats (length l) l = trimN pats (length r) r.
Proof.
  intros Hne Hcut. pose proof (cutAny_shorter _ _ _ Hne Hcut) as Hlt.
  destruct (length l) as [|n] eqn:Hl; [lia|].
  simpl. rewrite Hcut. apply trimN_fuel; [done|lia|lia].
Qed.

Lemma trimN_S pats n l :
  trimN pats (S n) l
  = match cutAny pats l with Some r => trimN pats n r | None => l end.
Proof. reflexivity. Qed.

Lemma trimN_none pats n l : cutAny pats l = None -> trimN pats n l = l.
Proof. intros H. destruct n; simpl; [done|]. by rewrite H. Qed.

Lemma white_space_nonempty : Forall (fun w => w <> []) white_space.
Proof. repeat constructor; discriminate. Qed.

Lemma white_space_rev_nonempty :
  Forall (fun w => w <> []) (map (@rev ascii) white_space).
Proof. repeat constructor; discriminate. Qed.

(** No encoding has the byte of the space after its first byte. *)
Lemma white_space_tails : Forall (fun w => " "%char ∉ tail w) white_space.
Proof.
  repeat constructor; simpl; intros Hin;
    repeat (apply elem_of_cons in Hin as [Hin|Hin]; [discriminate Hin|]);
    by apply elem_of_nil in Hin.
Qed.

Lemma cutPrefix_snoc w l :
  " "%char ∉ w -> cutPrefix w (l ++ [" "%char]) = (fun r => r ++ [" "%char]) <$> cutPrefix w l.
Proof.
  revert l. induction w as [|a w IH]; intros [|b l] Hw; simpl; try done.
  - destruct (Ascii.eqb a " "%char) eqn:Heq; [|done].
    apply Ascii.eqb_eq in Heq. subst a. exfalso. apply Hw. left.
  - destruct (Ascii.eqb a b); [|done]. apply IH.
    intros Hin. apply Hw. by right.
Qed.

Lemma cutAny_snoc pats l :
  l <> [] -> Forall (fun w => " "%char ∉ tail w) pats ->
  cutAny pats (l ++ [" "%char]) = (fun r => r ++ [" "%char]) <$> cutAny pats l.
Proof.
  intros Hl. induction 1 as [|w pats Hw _ IH]; simpl; [done|].
  assert (Hcut : cutPrefix w (l ++ [" "%char])
                 = (fun r => r ++ [" "%char]) <$> cutPrefix w l).
  { destruct w as [|a w]; [done|]. destruct l as [|b l]; [done|].
    simpl. destruct (Ascii.eqb a b); [|done]. by apply cutPrefix_snoc. }
  rewrite Hcut. destruct (cutPrefix w l); simpl; [done|apply IH].
Qed.

Lemma trimLeft_snoc l :
  trimLeft (l ++ [" "%char])
  = match trimLeft l with [] => [] | q => q ++ [" "%char] end.
Proof.
  remember (length l) as n eqn:Hn. revert l Hn.
  induction n as [n IH] using lt_wf_ind. intros l ->.
  destruct l as [|b l]; [done|].
  assert (Hsnoc : cutAny white_space ((b :: l) ++ [" "%char])
                  = (fun r => r ++ [" "%char]) <$> cutAny white_space (b :: l))
    by (by apply cutAny_snoc; [|apply white_space_tails]).
  unfold trimLeft.
  destruct (cutAny white_space (b :: l)) as [r|] eqn:Hcut.
  - change (cutAny white_space ((b :: l) ++ [" "%char]) = Some (r ++ [" "%char])) in Hsnoc.
    rewrite (trimN_cut _ _ _ white_space_nonempty Hsnoc).
    rewrite (trimN_cut _ _ _ white_space_nonempty Hcut).
    apply (IH (length r)); [|done].
    apply (cutAny_shorter _ _ _ white_space_nonempty Hcut).
  - change (cutAny white_space ((b :: l) ++ [" "%char]) = None) in Hsnoc.
    rewrite (trimN_none _ _ _ Hsnoc), (trimN_none _ _ _ Hcut).
    reflexivity.
Qed.

Lemma cutAny_rev_space x :
  cutAny (map (@rev ascii) white_space) (" "%char :: x) = Some x.
Proof. reflexivity. Qed.

Lemma trimRight_snoc q : trimRight (q ++ [" "%char]) = trimRight q.
Proof.
  unfold trimRight. rewrite rev_app_distr, length_app.
  replace (length q + length [" "%char])%nat with (S (length q)) by (simpl; lia).
  change (rev [" "%char] ++ rev q) with (" "%char :: rev q).
  by rewrite trimN_S, cutAny_rev_space.
Qed.

Lemma list_ascii_of_string_app s t :
  list_ascii_of_string (s +:+ t)
  = list_ascii_of_string s ++ list_ascii_of_string t.
Proof. induction s as [|a s IH]; simpl; [done|]. by rewrite IH. Qed.

Lemma TrimSpace_space p : TrimSpace (p +:+ " ") = TrimSpace p.
Proof.
  unfold TrimSpace. rewrite list_ascii_of_string_app. simpl.
  rewrite trimLeft_snoc.
  destruct (trimLeft (list_ascii_of_string p)) as [|b q]; [done|].
  by rewrite trimRight_snoc.
Qed.

Lemma TrimSpace_plain p :
  leadingSpace p = false -> trailingSpace p = false -> TrimSpace p = p.
Proof.
  unfold leadingSpace, trailingSpace, TrimSpace, trimLeft, trimRight.
  intros Hl Hr.
  destruct (cutAny white_space _) eqn:Hcl; [done|].
  rewrite (trimN_none _ _ _ Hcl).
  destruct (cutAny (map _ _) _) eqn:Hcr; [done|].
  rewrite (trimN_none _ _ _ Hcr).
  rewrite rev_involutive. apply string_of_list_ascii_of_string.
Qed.

Import shell.

(** C10: after [SetPrompt(p)] the prompt the shell stores and the one
    it hands to the line reader are [p] followed by one space, and
    [GetPrompt] returns [p] without the white space around it; so for
    a [p] that neither starts nor ends with white space, [GetPrompt]
    after [SetPrompt(p)] returns [p]. *)
Theorem SetPrompt_GetPrompt (s : Shell) (p : string) :
  currentPrompt (SetPrompt s p) = p +:+ " "
  /\ readline.Prompt (rl (SetPrompt s p)) = p +:+ " "
  /\ GetPrompt (SetPrompt s p) = gostrings.TrimSpace p
  /\ (leadingSpace p = false -> trailingSpace p = false ->
      GetPrompt (SetPrompt s p) = p).
Proof.
  repeat split.
  - apply TrimSpace_space.
  - intros Hl Hr. unfold GetPrompt. simpl.
    rewrite TrimSpace_space. by apply TrimSpace_plain.
Qed.

End Prompt.

(** ** What module code and calls leave alone *)

Section TraceFrames.

Import shell.

Lemma fst_eq {A B} (x : A * B) a b : x = (a, b) -> a = x.1.
Proof. by intros ->. Qed.

Lemma exec_commandModules c p :
  commandModules (sh (procOf (exec c p))) = commandModules (sh p).
Proof.
  revert p. induction c as [| | |n k IH|n k IH| | | | | | | | |]; intros p;
    simpl; try done; rewrite ?IHc, ?H; try done.
  - destruct (EnableModule (sh p) n) as [s err] eqn:He.
    rewrite IH. simpl. rewrite (fst_eq _ _ _ He).
    apply EnableModule_commandModules.
  - destruct (DisableModule (sh p) n) as [s err] eqn:He.
    rewrite IH. simpl. rewrite (fst_eq _ _ _ He).
    apply DisableModule_commandModules.
  - destruct (cobra.Commands _) as [r cmds]. by rewrite H.
Qed.

Lemma exec_State key c p :
  trace.leaves key c ->
  State (sh (procOf (exec c p))) !! key = State (sh p) !! key.
Proof.
  revert p.
  induction c as [| | |n k IH|n k IH| | | | |key' v k IH| | | |];
    intros p Hl; simpl in *; try done; rewrite ?IHc, ?H; try done.
  - destruct (EnableModule (sh p) n) as [s err] eqn:He.
    rewrite IH by done. simpl. rewrite (fst_eq _ _ _ He).
    by rewrite EnableModule_State.
  - destruct (DisableModule (sh p) n) as [s err] eqn:He.
    rewrite IH by done. simpl. rewrite (fst_eq _ _ _ He).
    by rewrite DisableModule_State.
  - destruct (cobra.Commands _) as [r cmds]. by rewrite H.
  - destruct Hl as [Hne Hl]. rewrite IH by done. simpl.
    by rewrite lookup_insert_ne.
Qed.

Lemma OnExit_commandModules s fn :
  commandModules (OnExit s fn) = commandModules s.
Proof.
  unfold OnExit. destruct (cobra.Commands _) as [r cmds].
  by destruct (List.find _ _).
Qed.

Lemma OnExit_State s fn : State (OnExit s fn) = State s.
Proof.
  unfold OnExit. destruct (cobra.Commands _) as [r cmds].
  by destruct (List.find _ _).
Qed.

Lemma RegisterModule_commandModules m p :
  commandModules (sh (procOf (RegisterModule m p)))
  = commandModules (sh p) ++ [m].
Proof.
  unfold RegisterModule.
  pose proof (exec_commandModules (module.Initialize m)
                (setSh (attach m (sh p)) p)) as He.
  destruct (exec _ _) as [p'|code p']; simpl in *.
  - by rewrite updateCompleter_commandModules.
  - done.
Qed.

Lemma RegisterModule_State key m p :
  trace.leaves key (module.Initialize m) ->
  State (sh (procOf (RegisterModule m p))) !! key = State (sh p) !! key.
Proof.
  intros Hl. unfold RegisterModule.
  pose proof (exec_State key (module.Initialize m)
                (setSh (attach m (sh p)) p) Hl) as He.
  destruct (exec _ _) as [p'|code p']; simpl in *.
  - by rewrite updateCompleter_State.
  - done.
Qed.

Lemma step_registered call p m :
  m ∈ commandModules (sh (procOf (trace.step call p))) ->
  m ∈ commandModules (sh p) \/ m ∈ trace.registered [call].
Proof.
  destruct call; simpl;
    rewrite ?EnableModule_commandModules, ?DisableModule_commandModules,
      ?OnExit_commandModules, ?exec_commandModules; auto.
  rewrite RegisterModule_commandModules, elem_of_app. tauto.
Qed.

Lemma registered_cons call calls :
  trace.registered (call :: calls)
  = trace.registered [call] ++ trace.registered calls.
Proof. by destruct call. Qed.

Lemma run_registered calls p m :
  m ∈ commandModules (sh (procOf (trace.run calls p))) ->
  m ∈ commandModules (sh p) \/ m ∈ trace.registered calls.
Proof.
  revert p. induction calls as [|call calls IH]; intros p; [simpl; auto|].
  pose proof (step_registered call p m) as Hs.
  rewrite registered_cons, elem_of_app. simpl.
  destruct (trace.step call p) as [p'|code p'].
  - intros Hm. apply IH in Hm as [Hm|Hm]; [|tauto].
    apply Hs in Hm. tauto.
  - intros Hm. apply Hs in Hm. tauto.
Qed.

Lemma step_State key call p :
  trace.callLeaves key call ->
  State (sh (procOf (trace.step call p))) !! key = State (sh p) !! key.
Proof.
  destruct call; simpl; intros Hl;
    rewrite ?EnableModule_State, ?DisableModule_State, ?OnExit_State; try done.
  - by apply RegisterModule_State.
  - by rewrite lookup_insert_ne.
  - by apply exec_State.
Qed.

Lemma run_State key calls p :
  Forall (trace.callLeaves key) calls ->
  State (sh (procOf (trace.run calls p))) !! key = State (sh p) !! key.
Proof.
  intros Hall. revert p.
  induction Hall as [|call calls Hc _ IH]; intros p; simpl; [done|].
  pose proof (step_State key call p Hc) as Hs.
  destruct (trace.step call p) as [p'|code p']; simpl in *.
  - by rewrite IH.
  - done.
Qed.

End TraceFrames.

(** ** The shared state and the names of the modules *)

Section StateAndNames.

Import shell.

(** C8: a [SetState(key, v)] followed by [GetState(key)] returns [v]
    and true whatever calls come between, as long as none of them is a
    [SetState] on that key or runs code that makes one; and on a new
    shell, whatever calls of that kind were made, [GetState(key)]
    returns nil and false. *)
Theorem SetState_GetState (key : string) (calls : list trace.Call)
  (Hleave : Forall (trace.callLeaves key) calls) :
  (forall s v, GetState (trace.after calls (SetState s key v)) key = (v, true))
  /\ (forall rootCmdName banner,
         GetState (trace.after calls (initial rootCmdName banner)) key
         = (shellapi.VNil, false)).
Proof.
  split; intros; unfold GetState, trace.after; rewrite run_State by done;
    simpl.
  - by rewrite lookup_insert_eq.
  - done.
Qed.

(** C6: for a name that was never passed to [RegisterModule], whatever
    calls were made on the shell since it was built, [EnableModule]
    returns the error of the module not found and leaves the shell as
    it is, and so does [DisableModule] unless the name is core. *)
Theorem unregistered_module_not_found
  (rootCmdName banner : string) (calls : list trace.Call) (n : string)
  (Hnever : n ∉ registry.names (trace.registered calls)) :
  let s := trace.after calls (initial rootCmdName banner) in
  EnableModule s n = (s, Some (ModuleNotFound n))
  /\ (n <> "core" -> DisableModule s n = (s, Some (ModuleNotFound n))).
Proof.
  intros s.
  assert (Hf : found s n = false).
  { apply not_true_is_false. rewrite found_spec.
    unfold GetModules. rewrite list_elem_of_fmap. intros (m & -> & Hm).
    apply run_registered in Hm as [Hm|Hm].
    - by apply elem_of_nil in Hm.
    - apply Hnever. unfold registry.names. apply list_elem_of_fmap. eauto. }
  split.
  - unfold EnableModule. by rewrite Hf.
  - intros Hcore. unfold DisableModule. rewrite Hf.
    by apply String.eqb_neq in Hcore as ->.
Qed.

End StateAndNames.

(** ** The shell of the example *)

Section Example.

Lemma NewShell_example :
  shell.NewShell "timer-demo" example.banner None
  = inl (shell.Running example.newShell).
Proof. reflexivity. Qed.

Lemma timerShell_runs :
  example.timerShell
  = shell.Running (shell.procOf example.timerShell).
Proof. reflexivity. Qed.

End Example.

(** ** Exit handlers *)

Section ExitHooks.

Import shell shellapi exithooks.

Lemma exec_seq a b p :
  exec (seq a b) p
  = match exec a p with
    | Running p' => exec b p'
    | Exited code p' => Exited code p'
    end.
Proof.
  revert p. induction a as [| | |n k IH|n k IH| | | | | | | | |]; intros p;
    simpl; try done.
  - destruct (shell.EnableModule (sh p) n). apply IH.
  - destruct (shell.DisableModule (sh p) n). apply IH.
  - destruct (cobra.Commands _). apply H.
Qed.

Lemma exec_chain hooks final p :
  exec (foldr seq final hooks) p
  = match execAll hooks p with
    | Running p' => exec final p'
    | Exited code p' => Exited code p'
    end.
Proof.
  revert p. induction hooks as [|h hooks IH]; intros p; simpl; [done|].
  rewrite exec_seq. by destruct (exec h p).
Qed.

Lemma find_filter {A} (f : A -> bool) (l : list A) :
  List.find f l = head (filter (fun x => f x = true) l).
Proof.
  induction l as [|x l IH]; simpl; [done|].
  rewrite filter_cons. destruct (f x) eqn:Hf.
  - by rewrite decide_True.
  - by rewrite decide_False.
Qed.

Lemma filter_fmap_invariant {A} (P : A -> Prop) `{forall x, Decision (P x)}
  (f : A -> A) (l : list A) :
  (forall x, P (f x) <-> P x) -> filter P (f <$> l) = f <$> filter P l.
Proof.
  intros Hf. induction l as [|x l IH]; [done|].
  rewrite fmap_cons, !filter_cons.
  destruct (decide (P x)) as [Hx|Hx].
  - rewrite decide_True by by apply Hf. by rewrite fmap_cons, IH.
  - rewrite decide_False by by rewrite Hf. done.
Qed.

Lemma answers_assignRun p run word l :
  filter (fun cmd => answers word cmd = true) (assignRun p run l)
  = assignRun p run (filter (fun cmd => answers word cmd = true) l).
Proof.
  apply (filter_fmap_invariant (fun cmd => answers word cmd = true)).
  intros c. by destruct (decide (cobra.ptr c = p)).
Qed.

(** One call of [OnExit] on a shell whose exit command is [cmd]. *)
Lemma OnExit_exit s fn cmd :
  filter (fun c => answers "exit" c = true) (cobra.commands (rootCmd s)) = [cmd] ->
  cobra.Name cmd = "exit" ->
  filter (fun c => answers "exit" c = true)
         (cobra.commands (rootCmd (OnExit s fn)))
  = [cobra.withRun (fun args => seq fn (cobra.Run cmd args)) cmd].
Proof.
  intros Hone Hname. unfold OnExit.
  pose proof (Commands_perm (rootCmd s)) as Hperm.
  pose proof (Commands_commands (rootCmd s)) as Hcmds.
  destruct (cobra.Commands (rootCmd s)) as [r cmds]. simpl in *.
  assert (Hone' : filter (fun c => answers "exit" c = true) cmds = [cmd]).
  { apply Permutation_singleton_r. by rewrite Hperm, Hone. }
  assert (Hfind : List.find (fun c => String.eqb (cobra.Name c) "exit") cmds
                  = Some cmd).
  { rewrite find_filter.
    rewrite <- (list_filter_filter_l _ (fun c => answers "exit" c = true)).
    - rewrite Hone'. rewrite filter_cons_True; [done|].
      rewrite Hname. apply String.eqb_refl.
    - intros c Hc. unfold answers. by rewrite Hc. }
  rewrite Hfind. simpl. rewrite answers_assignRun, Hcmds, Hone'. simpl.
  by rewrite decide_True.
Qed.

Lemma onExits_snoc s hooks h :
  onExits s (hooks ++ [h]) = OnExit (onExits s hooks) h.
Proof. unfold onExits. by rewrite foldl_app. Qed.

Lemma onExits_exit s hooks p0 :
  filter (fun c => answers "exit" c = true) (cobra.commands (rootCmd s))
  = [core.exitCmd p0] ->
  exists run,
    filter (fun c => answers "exit" c = true)
           (cobra.commands (rootCmd (onExits s hooks)))
    = [cobra.withRun run (core.exitCmd p0)]
    /\ forall args, run args = foldr seq (core.exitRun args) (rev hooks).
Proof.
  intros Hone. induction hooks as [|h hooks IH] using rev_ind.
  - exists core.exitRun. by split.
  - destruct IH as (run & Hrun & Hchain).
    exists (fun args => seq h (run args)). split.
    + rewrite onExits_snoc. by rewrite (OnExit_exit _ _ _ Hrun).
    + intros args. rewrite rev_app_distr. simpl. by rewrite Hchain.
Qed.

(** C2 (as the code has it): on a shell whose exit command is the one
    of the core module, after any sequence of [OnExit] registrations
    the exit command runs every registered handler once, the one
    registered last first and the one registered first last, and then
    what it did before (it prints Goodbye! and ends the process with
    status 0); a handler that ends the process itself keeps the later
    ones from running. *)
Theorem exit_runs_handlers_last_registered_first
  (s : Shell) (hooks : list Prog) (out : list string)
  (Hexit : builtinExit s) :
  let p := {| sh := onExits s hooks; stdout := out |} in
  runCommand "exit" [] p = Some (thenExit (execAll (rev hooks) p)).
Proof.
  intros p. destruct Hexit as [p0 Hone].
  destruct (onExits_exit s hooks p0 Hone) as (run & Hrun & Hchain).
  unfold runCommand, cobra.findNext.
  change (fun cmd => String.eqb (cobra.Name cmd) "exit" || cobra.HasAlias cmd "exit")
    with (answers "exit").
  rewrite find_filter. simpl. rewrite Hrun. simpl.
  rewrite Hchain, exec_chain. unfold thenExit.
  by destruct (execAll (rev hooks) p).
Qed.

End ExitHooks.

(** ** The help function *)

Section Help.

Import shell.

Lemma GetEnabledModules_spec s order n :
  rangeOrder s order ->
  n ∈ GetEnabledModules s order <-> IsModuleEnabled s n = true.
Proof.
  intros Hperm. unfold GetEnabledModules, IsModuleEnabled, enabledAt.
  rewrite list_elem_of_fmap. split.
  - intros ([k b] & -> & Hin). apply list_elem_of_filter in Hin as [Hb Hin].
    simpl in *. subst b. rewrite Hperm in Hin.
    apply elem_of_map_to_list in Hin. by rewrite Hin.
  - intros Hen. exists (n, true). split; [done|].
    apply list_elem_of_filter. split; [done|]. rewrite Hperm.
    apply elem_of_map_to_list.
    destruct (enabledModules s !! n) as [[]|]; simpl in Hen; done.
Qed.

Lemma GetEnabledModules_NoDup s order :
  rangeOrder s order -> NoDup (GetEnabledModules s order).
Proof.
  intros Hperm. unfold GetEnabledModules.
  apply (sublist_NoDup _ (order.*1)).
  - rewrite Hperm. apply NoDup_fst_map_to_list.
  - apply fmap_sublist, sublist_filter.
Qed.

Lemma omap_keys {A} (f : string -> option A) (l : list string) :
  (omap (fun n => (fun x => (n, x)) <$> f n) l).*1
  = filter (fun n => is_Some (f n)) l.
Proof.
  induction l as [|n l IH]; [done|].
  rewrite filter_cons. csimpl. destruct (f n) as [x|] eqn:Hf; csimpl.
  - by rewrite IH.
  - done.
Qed.

Lemma shown_keys v :
  (core.shown v).*1
  = filter (fun n => is_Some (match core.groups v !! n with
                              | Some (c :: cmds) => Some (c :: cmds)
                              | _ => None
                              end))
           (core.EnabledModules v).
Proof.
  rewrite <- omap_keys. unfold core.shown. f_equal.
  apply list_omap_ext. apply Forall2_same_length_lookup. split; [done|].
  intros i n n' Hn Hn'. rewrite Hn in Hn'. injection Hn' as <-.
  by destruct (core.groups v !! n) as [[|c cmds]|].
Qed.

Lemma length_append (s t : string) :
  String.length (s +:+ t) = (String.length s + String.length t)%nat.
Proof. induction s as [|a s IH]; simpl; [done|]. by rewrite IH. Qed.

Lemma Join_length elems sep a :
  a ∈ elems -> (String.length a <= String.length (gostrings.Join elems sep))%nat.
Proof.
  induction elems as [|e elems IH]; intros Ha; [by apply elem_of_nil in Ha|].
  destruct elems as [|e' elems].
  - apply list_elem_of_singleton in Ha as ->. done.
  - change (gostrings.Join (e :: e' :: elems) sep)
      with (e +:+ sep +:+ gostrings.Join (e' :: elems) sep).
    rewrite !length_append.
    apply elem_of_cons in Ha as [->|Ha]; [lia|].
    specialize (IH Ha). lia.
Qed.

(** The comparison of the help function never holds for an alias that
    is not the name: the joined string is longer than each alias. *)
Lemma alias_never_matches (c : cobra.Command) (a : string) :
  a ∈ cobra.Aliases c -> a <> cobra.Name c -> core.matches a c = false.
Proof.
  intros Ha Hname. unfold core.matches.
  apply orb_false_intro.
  - apply String.eqb_neq. congruence.
  - apply String.eqb_neq. intros Heq.
    apply (f_equal String.length) in Heq.
    unfold cobra.NameAndAliases in Heq.
    destruct (cobra.Aliases c) as [|a' aliases] eqn:Hal;
      [by apply elem_of_nil in Ha|].
    change (gostrings.Join (cobra.Name c :: a' :: aliases) ", ")
      with (cobra.Name c +:+ ", " +:+ gostrings.Join (a' :: aliases) ", ")
      in Heq.
    rewrite !length_append in Heq.
    change (String.length ", ") with 2%nat in Heq.
    pose proof (Join_length (a' :: aliases) ", " a Ha). lia.
Qed.

(** C4 (the code at the failing input): a module has registered the
    command time with the alias t, and help is asked for t.  The
    command is registered and answers to t, and the help function
    reports an unknown command. *)
Theorem help_does_not_match_alias (order : list (string * bool))
  (onRoot : bool) :
  (exists c, c ∈ registry.namespace help.aliasShell
             /\ cobra.Name c = "time" /\ cobra.HasAlias c "t" = true)
  /\ core.helpFunc (view help.aliasShell order) onRoot ["t"]
     = core.Printed ["Unknown command: t"].
Proof.
  split.
  - exists (help.aliased 4). split; [|done].
    vm_compute. do 5 right. left.
  - reflexivity.
Qed.

End Help.

(** ** The command namespace and the enablement table *)

Section Registry.

Import shell registry.

Lemma commandsOf_app ms1 ms2 :
  commandsOf (ms1 ++ ms2) = commandsOf ms1 ++ commandsOf ms2.
Proof. unfold commandsOf. by rewrite map_app, concat_app. Qed.

Lemma commandsOf_cons m ms :
  commandsOf (m :: ms) = module.GetCommands m ++ commandsOf ms.
Proof. done. Qed.

Lemma descriptors_cons m ms :
  descriptors (m :: ms)
  = map cobra.ptr (module.GetCommands m) ++ descriptors ms.
Proof. unfold descriptors. simpl. by rewrite map_app. Qed.

Lemma descriptors_elem m ms c :
  m ∈ ms -> c ∈ module.GetCommands m -> cobra.ptr c ∈ descriptors ms.
Proof.
  intros Hm Hc. unfold descriptors. apply list_elem_of_fmap.
  exists c. split; [done|]. apply list_elem_of_In, in_concat.
  exists (module.GetCommands m). split.
  - apply in_map. by apply list_elem_of_In.
  - by apply list_elem_of_In.
Qed.

Lemma commandsOf_elem ms c :
  c ∈ commandsOf ms <-> exists m, m ∈ ms /\ c ∈ module.GetCommands m.
Proof.
  unfold commandsOf. rewrite list_elem_of_In, in_concat. split.
  - intros (l & Hl & Hc). apply in_map_iff in Hl as (m & <- & Hm).
    exists m. by rewrite !list_elem_of_In.
  - intros (m & Hm & Hc). exists (module.GetCommands m).
    rewrite <- !list_elem_of_In. split; [|done].
    apply list_elem_of_fmap. eauto.
Qed.

Lemma enabledIn_elem e ms m :
  m ∈ enabledIn e ms <-> default false (e !! module.Name m) = true /\ m ∈ ms.
Proof. unfold enabledIn. by rewrite list_elem_of_filter. Qed.

Lemma enabledIn_cons e a ms :
  enabledIn e (a :: ms)
  = if decide (default false (e !! module.Name a) = true)
    then a :: enabledIn e ms else enabledIn e ms.
Proof. unfold enabledIn. by rewrite filter_cons. Qed.

(** A table changed at a name no module of the list has. *)
Lemma enabledIn_insert_fresh e ms n b :
  n ∉ names ms -> enabledIn (<[n := b]> e) ms = enabledIn e ms.
Proof.
  intros Hn. apply filter_ext_elem. intros m Hm.
  rewrite lookup_insert_ne; [done|].
  intros ->. apply Hn. unfold names. apply list_elem_of_fmap. eauto.
Qed.

Lemma names_elem m ms : m ∈ ms -> module.Name m ∈ names ms.
Proof. intros Hm. unfold names. apply list_elem_of_fmap. eauto. Qed.

(** Enabling a module that was disabled adds its commands. *)
Lemma enabledIn_insert_true e ms m :
  NoDup (names ms) -> m ∈ ms ->
  default false (e !! module.Name m) = false ->
  commandsOf (enabledIn (<[module.Name m := true]> e) ms)
  ≡ₚ commandsOf (enabledIn e ms) ++ module.GetCommands m.
Proof.
  intros Hnd Hm Hoff. induction ms as [|a ms IH]; [by apply elem_of_nil in Hm|].
  change (NoDup (module.Name a :: names ms)) in Hnd.
  apply NoDup_cons in Hnd as [Ha Hnd].
  rewrite !enabledIn_cons.
  apply elem_of_cons in Hm as [->|Hm].
  - rewrite lookup_insert_eq.
    rewrite decide_True by done. rewrite decide_False by (by rewrite Hoff).
    rewrite commandsOf_cons.
    rewrite (enabledIn_insert_fresh e ms (module.Name a) true Ha).
    apply Permutation_app_comm.
  - assert (Hne : module.Name m <> module.Name a).
    { intros Heq. apply Ha. rewrite <- Heq. by apply names_elem. }
    rewrite lookup_insert_ne by done.
    destruct (decide (default false (e !! module.Name a) = true)).
    + rewrite !commandsOf_cons, <- app_assoc. f_equiv. by apply IH.
    + by apply IH.
Qed.

(** Disabling a module that was enabled removes its commands, and
    only them, when no two modules share a name or a command. *)
Lemma enabledIn_insert_false e ms m :
  NoDup (names ms) -> NoDup (descriptors ms) -> m ∈ ms ->
  commandsOf (enabledIn (<[module.Name m := false]> e) ms)
  = filter (fun y => cobra.ptr y ∉ map cobra.ptr (module.GetCommands m))
           (commandsOf (enabledIn e ms)).
Proof.
  intros Hnd Hdesc Hm.
  induction ms as [|a ms IH]; [by apply elem_of_nil in Hm|].
  change (NoDup (module.Name a :: names ms)) in Hnd.
  apply NoDup_cons in Hnd as [Ha Hnd].
  rewrite descriptors_cons in Hdesc.
  apply NoDup_app in Hdesc as (Hda & Hdisj & Hdms).
  rewrite !enabledIn_cons.
  apply elem_of_cons in Hm as [->|Hm].
  - rewrite lookup_insert_eq. rewrite decide_False by done.
    rewrite (enabledIn_insert_fresh e ms (module.Name a) false Ha).
    assert (Hrest : filter (fun y => cobra.ptr y ∉ map cobra.ptr (module.GetCommands a))
                           (commandsOf (enabledIn e ms))
                    = commandsOf (enabledIn e ms)).
    { apply filter_all. intros c Hc Hin.
      apply commandsOf_elem in Hc as (m' & Hm' & Hc).
      apply enabledIn_elem in Hm' as [_ Hm'].
      apply (Hdisj _ Hin). by apply (descriptors_elem m'). }
    destruct (decide (default false (e !! module.Name a) = true)).
    + rewrite commandsOf_cons, filter_app, Hrest.
      rewrite filter_none; [done|].
      intros c Hc Hn. apply Hn. apply list_elem_of_fmap. eauto.
    + by rewrite Hrest.
  - assert (Hne : module.Name m <> module.Name a).
    { intros Heq. apply Ha. rewrite <- Heq. by apply names_elem. }
    rewrite lookup_insert_ne by done.
    destruct (decide (default false (e !! module.Name a) = true)).
    + rewrite !commandsOf_cons, filter_app. f_equal; [|by apply IH].
      symmetry. apply filter_all. intros c Hc Hin.
      apply list_elem_of_fmap in Hin as (c' & Heq & Hc').
      apply (Hdisj (cobra.ptr c)).
      * apply list_elem_of_fmap. eauto.
      * rewrite Heq. by apply (descriptors_elem m).
    + by apply IH.
Qed.

End Registry.

Section RegistryInvariant.

Import shell registry.

Lemma wellFormed_ext s s' :
  commandModules s' = commandModules s ->
  enabledModules s' = enabledModules s ->
  moduleCommands s' = moduleCommands s ->
  namespace s' ≡ₚ namespace s ->
  wellFormed s -> wellFormed s'.
Proof.
  intros Hm He Hc Hn [W1 W2 W3 W4].
  split; rewrite ?Hm, ?He, ?Hc, ?Hn; done.
Qed.

Lemma updateCompleter_wellFormed s :
  wellFormed s -> wellFormed (updateCompleter s).
Proof.
  apply wellFormed_ext.
  - apply updateCompleter_commandModules.
  - apply updateCompleter_enabledModules.
  - apply updateCompleter_moduleCommands.
  - unfold namespace. rewrite updateCompleter_commands. apply Commands_perm.
Qed.

Lemma found_module s n :
  found s n = true -> exists m, m ∈ commandModules s /\ module.Name m = n.
Proof.
  rewrite found_spec. unfold GetModules. rewrite list_elem_of_fmap.
  intros (m & -> & Hm). eauto.
Qed.

Lemma EnableModule_wellFormed s n :
  wellFormed s -> wellFormed (EnableModule s n).1.
Proof.
  intros Hwf. unfold EnableModule.
  destruct (found s n) eqn:Hf; simpl; [|done].
  destruct (enabledAt s n) eqn:He; simpl; [done|].
  apply updateCompleter_wellFormed.
  apply found_module in Hf as (m & Hm & <-).
  destruct Hwf as [W1 W2 W3 W4].
  split; simpl; try done.
  unfold namespace. simpl. rewrite addCommands_commands.
  unfold commandsAt. simpl. rewrite (W3 m Hm). simpl.
  rewrite enabledIn_insert_true by done.
  by rewrite <- W4.
Qed.

Lemma DisableModule_wellFormed s n :
  wellFormed s -> wellFormed (DisableModule s n).1.
Proof.
  intros Hwf. unfold DisableModule.
  destruct (String.eqb n "core"); [done|].
  destruct (found s n) eqn:Hf; simpl; [|done].
  destruct (enabledAt s n) eqn:He; simpl; [|done].
  apply updateCompleter_wellFormed.
  apply found_module in Hf as (m & Hm & <-).
  destruct Hwf as [W1 W2 W3 W4].
  split; simpl; try done.
  unfold namespace. simpl. rewrite removeCommands_commands.
  unfold commandsAt. simpl. rewrite (W3 m Hm). simpl.
  rewrite enabledIn_insert_false by done.
  unfold namespace in W4. by rewrite W4.
Qed.

Lemma attach_wellFormed m s :
  wellFormed s ->
  NoDup (names (commandModules s ++ [m])) ->
  NoDup (descriptors (commandModules s ++ [m])) ->
  wellFormed (attach m s).
Proof.
  intros [W1 W2 W3 W4] Hnames Hdesc.
  assert (Hfresh : module.Name m ∉ names (commandModules s)).
  { unfold names in Hnames. rewrite fmap_app in Hnames.
    apply NoDup_app in Hnames as (_ & Hdisj & _).
    intros Hin. apply (Hdisj _ Hin). left. }
  split; simpl; try done.
  - intros m' Hm'. apply elem_of_app in Hm' as [Hm'|Hm'].
    + rewrite lookup_insert_ne; [by apply W3|].
      intros Heq. apply Hfresh. rewrite Heq. by apply names_elem.
    + apply list_elem_of_singleton in Hm' as ->. by rewrite lookup_insert_eq.
  - unfold namespace. simpl. rewrite addCommands_commands.
    unfold enabledIn. rewrite filter_app. fold (enabledIn (<[module.Name m:=true]> (enabledModules s)) (commandModules s)).
    rewrite enabledIn_insert_fresh by done.
    rewrite filter_cons_True by (by rewrite lookup_insert_eq).
    rewrite filter_nil, commandsOf_app, commandsOf_cons.
    unfold namespace in W4. rewrite W4. by rewrite app_nil_r.
Qed.

Lemma exec_wellFormed c p :
  wellFormed (sh p) -> wellFormed (sh (procOf (exec c p))).
Proof.
  revert p. induction c as [| | |n k IH|n k IH| | |k IH| | | | | |]; intros p Hwf;
    simpl; try done; try (by apply IHc); try (by apply H);
    try (apply IHc; simpl; by apply (wellFormed_ext (sh p))).
  - destruct (EnableModule (sh p) n) as [s err] eqn:He.
    apply IH. simpl. rewrite (fst_eq _ _ _ He).
    by apply EnableModule_wellFormed.
  - destruct (DisableModule (sh p) n) as [s err] eqn:He.
    apply IH. simpl. rewrite (fst_eq _ _ _ He).
    by apply DisableModule_wellFormed.
  - pose proof (Commands_perm (rootCmd (sh p))) as Hperm.
    pose proof (Commands_commands (rootCmd (sh p))) as Hcmds.
    destruct (cobra.Commands _) as [r cmds]. apply IH. simpl in *.
    apply (wellFormed_ext (sh p)); try done.
    unfold namespace. simpl. by rewrite Hcmds.
Qed.

Lemma RegisterModule_wellFormed m p :
  wellFormed (sh p) ->
  NoDup (names (commandModules (sh p) ++ [m])) ->
  NoDup (descriptors (commandModules (sh p) ++ [m])) ->
  wellFormed (sh (procOf (RegisterModule m p))).
Proof.
  intros Hwf Hn Hd. unfold RegisterModule.
  pose proof (exec_wellFormed (module.Initialize m)
                (setSh (attach m (sh p)) p)
                (attach_wellFormed m (sh p) Hwf Hn Hd)) as He.
  destruct (exec _ _) as [p'|code p']; simpl in *; [|done].
  by apply updateCompleter_wellFormed.
Qed.

End RegistryInvariant.

Section Namespace.

Import shell registry.

Lemma names_app ms1 ms2 : names (ms1 ++ ms2) = names ms1 ++ names ms2.
Proof. unfold names. by rewrite map_app. Qed.

Lemma descriptors_app ms1 ms2 :
  descriptors (ms1 ++ ms2) = descriptors ms1 ++ descriptors ms2.
Proof. unfold descriptors. by rewrite map_app, concat_app, map_app. Qed.

Lemma NoDup_app_l {A} (l k : list A) : NoDup (l ++ k) -> NoDup l.
Proof. intros H. by apply NoDup_app in H as (? & _ & _). Qed.

Lemma run_wellFormed calls p :
  forallb trace.registryCall calls = true ->
  wellFormed (sh p) ->
  NoDup (names (commandModules (sh p) ++ trace.registered calls)) ->
  NoDup (descriptors (commandModules (sh p) ++ trace.registered calls)) ->
  wellFormed (sh (procOf (trace.run calls p))).
Proof.
  revert p. induction calls as [|call calls IH]; intros p Hreg Hwf Hn Hd;
    [done|].
  simpl in Hreg. apply andb_prop in Hreg as [Hcall Hreg].
  destruct call as [m|n|n| | | | |]; try discriminate Hcall; simpl.
  - change (trace.registered (trace.CallRegisterModule m :: calls))
      with (m :: trace.registered calls) in Hn, Hd.
    rewrite (cons_middle m), app_assoc in Hn, Hd.
    pose proof (RegisterModule_commandModules m p) as Hms.
    assert (Hwf' : wellFormed (sh (procOf (RegisterModule m p)))).
    { apply RegisterModule_wellFormed; [done|..].
      - rewrite names_app in Hn. by apply NoDup_app_l in Hn.
      - rewrite descriptors_app in Hd. by apply NoDup_app_l in Hd. }
    destruct (RegisterModule m p) as [p'|code p']; simpl in *; [|done].
    apply IH; rewrite ?Hms; done.
  - apply IH; simpl; rewrite ?EnableModule_commandModules; try done.
    by apply EnableModule_wellFormed.
  - apply IH; simpl; rewrite ?DisableModule_commandModules; try done.
    by apply DisableModule_wellFormed.
Qed.

Lemma commandsOf_sublist (P : module.CommandModule -> Prop)
  `{forall m, Decision (P m)} ms :
  commandsOf (filter P ms) `sublist_of` commandsOf ms.
Proof.
  induction ms as [|a ms IH]; [done|].
  rewrite filter_cons. destruct (decide (P a)).
  - rewrite !commandsOf_cons. by apply sublist_app.
  - rewrite commandsOf_cons. by apply sublist_inserts_l.
Qed.

Lemma wellFormed_consistent s : wellFormed s -> consistent s.
Proof.
  intros [W1 W2 W3 W4]. split.
  - rewrite W4. apply (NoDup_fmap_1 cobra.ptr).
    apply (sublist_NoDup _ (descriptors (commandModules s))); [done|].
    unfold descriptors. apply fmap_sublist.
    apply (commandsOf_sublist _ (commandModules s)).
  - intros c. rewrite W4. apply commandsOf_elem.
Qed.

Lemma initial_wellFormed rootCmdName banner :
  wellFormed (initial rootCmdName banner).
Proof.
  split; simpl; try constructor.
  intros m Hm. by apply elem_of_nil in Hm.
Qed.

(** C1 (as the code has it): after every sequence of calls of
    [RegisterModule], [EnableModule] and [DisableModule] on a new shell
    in which no two registered modules have the same name and no
    command is registered twice, the command namespace is the union of
    the commands of the modules whose entry in the enablement table is
    true: every such command is there, no other is, and none is there
    twice. *)
Theorem namespace_is_union_of_enabled
  (rootCmdName banner : string) (calls : list trace.Call)
  (Hcalls : forallb trace.registryCall calls = true)
  (Hnames : NoDup (names (trace.registered calls)))
  (Hdescriptors : NoDup (descriptors (trace.registered calls))) :
  consistent (trace.after calls (initial rootCmdName banner)).
Proof.
  apply wellFormed_consistent. unfold trace.after.
  apply run_wellFormed; try done. apply initial_wellFormed.
Qed.

End Namespace.

(** ** Which modules have a group in the listing *)

Section Groups.

Import shell registry.

Lemma find_elem {A} (f : A -> bool) (l : list A) x :
  x ∈ l -> f x = true -> is_Some (List.find f l).
Proof.
  intros Hx Hf. induction Hx as [x l|x y l _ IH]; simpl.
  - rewrite Hf. eauto.
  - destruct (f y); eauto.
Qed.

(** In a well-formed shell every enabled module that has a command has
    a group in the listing. *)
Lemma enabled_module_has_group s order m :
  wellFormed s -> m ∈ enabled s -> module.GetCommands m <> [] ->
  help.hasGroup s order (module.Name m) = true.
Proof.
  intros [W1 W2 W3 W4] Hm Hcmds.
  apply list_elem_of_filter in Hm as [Hen Hm].
  destruct (module.GetCommands m) as [|c cmds] eqn:HG; [done|].
  assert (Hroot : c ∈ (cobra.Commands (rootCmd s)).2).
  { rewrite Commands_perm. fold (namespace s). rewrite W4.
    apply commandsOf_elem. exists m. split.
    - by apply enabledIn_elem.
    - rewrite HG. left. }
  assert (Hgather : exists g gs,
             core.gather (view s order) !! module.Name m = Some (g :: gs)).
  { unfold core.gather. rewrite map_lookup_imap. simpl.
    unfold GetModuleCommands. rewrite (W3 m Hm), HG. simpl. rewrite Hen.
    destruct (find_elem
                (fun rootCmd => String.eqb (cobra.Name rootCmd) (cobra.Name c))
                _ c Hroot (String.eqb_refl _)) as [c' Hfind].
    unfold core.lookupByName at 1. rewrite Hfind. eauto. }
  destruct Hgather as (g & gs & Hg).
  unfold help.hasGroup, core.groups, core.withHelp.
  destruct (List.find _ _) as [h|]; [|by rewrite Hg].
  destruct (decide (module.Name m = "core")) as [Heq|Hne].
  - rewrite Heq in *. rewrite lookup_insert_eq, Hg. done.
  - rewrite lookup_insert_ne by done. by rewrite Hg.
Qed.

Lemma cmdList_elem root cmds c :
  c ∈ core.cmdList root cmds ->
  c ∈ root /\ exists c0, c0 ∈ cmds /\ cobra.Name c0 = cobra.Name c.
Proof.
  unfold core.cmdList. rewrite list_elem_of_omap. intros (c0 & Hc0 & Hfind).
  unfold core.lookupByName in Hfind. apply find_some in Hfind as [Hin Heq].
  apply String.eqb_eq in Heq. split; [by apply list_elem_of_In|eauto].
Qed.

Lemma gather_elem v n l c :
  core.gather v !! n = Some l -> c ∈ l ->
  core.ModuleEnabled v n = true
  /\ c ∈ core.RootCommands v
  /\ exists c0, c0 ∈ default [] (core.ModuleCommands v !! n)
                /\ cobra.Name c0 = cobra.Name c.
Proof.
  unfold core.gather. rewrite map_lookup_imap.
  destruct (core.ModuleCommands v !! n) as [cmds|]; simpl; [|done].
  destruct (core.ModuleEnabled v n); [|done].
  intros [= <-] Hc. apply cmdList_elem in Hc as [Hroot Hname]. by repeat split.
Qed.

Lemma groups_elem v n l c :
  core.groups v !! n = Some l -> c ∈ l ->
  c ∈ core.RootCommands v
  /\ ((exists c0, c0 ∈ default [] (core.ModuleCommands v !! n)
                  /\ cobra.Name c0 = cobra.Name c)
      \/ (n = "core" /\ cobra.Name c = "help")).
Proof.
  unfold core.groups, core.withHelp.
  destruct (List.find _ (core.RootCommands v)) as [h|] eqn:Hfind.
  - apply find_some in Hfind as [Hh Hname]. apply String.eqb_eq in Hname.
    apply list_elem_of_In in Hh.
    rewrite lookup_insert. destruct (decide ("core" = n)) as [<-|Hne].
    + intros [= <-] Hc. apply elem_of_app in Hc as [Hc|Hc].
      * destruct (core.gather v !! "core") as [l0|] eqn:Hg;
          [|by apply elem_of_nil in Hc].
        destruct (gather_elem v _ _ c Hg Hc) as (_ & Hroot & Hc0). auto.
      * apply list_elem_of_singleton in Hc as ->. auto.
    + intros Hg Hc. destruct (gather_elem v _ _ c Hg Hc) as (_ & Hroot & Hc0).
      auto.
  - intros Hg Hc. destruct (gather_elem v _ _ c Hg Hc) as (_ & Hroot & Hc0).
    auto.
Qed.




End Groups.

(** ** The claims on concrete shells *)

Section Instances.

Import shell registry.

(** The timer module is registered twice, as [main] could do, and then
    disabled: the commands of the first registration stay on the root
    although the entry of timer in the enablement table is false.  And
    two modules that hand out the same command put it on the root
    twice. *)
Lemma namespace_keeps_commands_of_disabled_module :
  (forallb trace.registryCall timerTwice = true
   /\ ~ consistent (trace.after timerTwice (initial "timer-demo" "")))
  /\ (forallb trace.registryCall sharedCommand = true
      /\ NoDup (names (trace.registered sharedCommand))
      /\ ~ consistent (trace.after sharedCommand (initial "timer-demo" ""))).
Proof.
  split; split; try reflexivity.
  - intros [_ Hiff].
    destruct (Hiff (example.timeCmd 4 "0s")) as [Hin _].
    destruct Hin as (m & Hm & Hc).
    { vm_compute. do 5 right. left. }
    replace (enabled (trace.after timerTwice (initial "timer-demo" "")))
      with [core.New 0] in Hm by (vm_compute; reflexivity).
    apply list_elem_of_singleton in Hm as ->.
    repeat (apply elem_of_cons in Hc as [Hc|Hc]; [discriminate Hc|]).
    by apply elem_of_nil in Hc.
  - split; [compute_done|]. intros [Hnd _].
    replace (namespace (trace.after sharedCommand (initial "timer-demo" "")))
      with [core.disableCmd 3; core.enableCmd 2; core.exitCmd 0;
            core.modulesCmd 1; example.timeCmd 4 "0s"; example.timeCmd 4 "0s"]
      in Hnd by (vm_compute; reflexivity).
    do 4 (apply NoDup_cons in Hnd as [_ Hnd]).
    apply NoDup_cons in Hnd as [Hin _]. apply Hin. left.
Qed.

Lemma namespace_is_union_of_enabled_witness :
  forallb trace.registryCall timerOffOn = true
  /\ NoDup (names (trace.registered timerOffOn))
  /\ NoDup (descriptors (trace.registered timerOffOn))
  /\ consistent (trace.after timerOffOn (initial "timer-demo" "")).
Proof.
  assert (H1 : forallb trace.registryCall timerOffOn = true) by reflexivity.
  assert (H2 : NoDup (names (trace.registered timerOffOn))) by compute_done.
  assert (H3 : NoDup (descriptors (trace.registered timerOffOn)))
    by compute_done.
  split; [exact H1|]. split; [exact H2|]. split; [exact H3|].
  apply (namespace_is_union_of_enabled "timer-demo" "" timerOffOn H1 H2 H3).
Defined.

(** Two handlers are registered on the shell of the example: the exit
    command runs the second before the first. *)
Lemma exit_runs_second_handler_first :
  ~ exithooks.inRegistrationOrder exithooks.timerDemo exithooks.twoHooks [].
Proof.
  unfold exithooks.inRegistrationOrder. intros H.
  apply (f_equal (option_map (fun r => stdout (procOf r)))) in H.
  vm_compute in H. discriminate H.
Qed.

Lemma exit_runs_handlers_witness :
  exithooks.builtinExit exithooks.timerDemo
  /\ runCommand "exit" []
       {| sh := exithooks.onExits exithooks.timerDemo exithooks.twoHooks;
          stdout := [] |}
     = Some (exithooks.thenExit
               (exithooks.execAll (rev exithooks.twoHooks)
                  {| sh := exithooks.onExits exithooks.timerDemo
                             exithooks.twoHooks;
                     stdout := [] |})).
Proof.
  assert (H : exithooks.builtinExit exithooks.timerDemo)
    by (exists 0%nat; reflexivity).
  split; [done|].
  apply (exit_runs_handlers_last_registered_first
           exithooks.timerDemo exithooks.twoHooks [] H).
Defined.



Lemma unregistered_module_not_found_witness :
  ("nosuch" ∉ names (trace.registered timerOffOn))
  /\ EnableModule (trace.after timerOffOn (initial "timer-demo" "")) "nosuch"
     = (trace.after timerOffOn (initial "timer-demo" ""),
        Some (ModuleNotFound "nosuch"))
  /\ DisableModule (trace.after timerOffOn (initial "timer-demo" "")) "nosuch"
     = (trace.after timerOffOn (initial "timer-demo" ""),
        Some (ModuleNotFound "nosuch")).
Proof.
  assert (H : "nosuch" ∉ names (trace.registered timerOffOn)) by compute_done.
  split; [done|].
  destruct (unregistered_module_not_found "timer-demo" "" timerOffOn
              "nosuch" H) as [He Hd].
  split; [exact He|]. apply Hd. discriminate.
Defined.

Lemma SetState_GetState_witness :
  Forall (trace.callLeaves "start_time")
    [trace.CallRegisterModule (core.New 0);
     trace.CallSetState "other" (shellapi.VInt 1);
     trace.CallDisableModule "core"]
  /\ GetState (trace.after
                 [trace.CallRegisterModule (core.New 0);
                  trace.CallSetState "other" (shellapi.VInt 1);
                  trace.CallDisableModule "core"]
                 (SetState (initial "timer-demo" "") "start_time"
                           (shellapi.VTime 7)))
              "start_time"
     = (shellapi.VTime 7, true).
Proof.
  assert (H : Forall (trace.callLeaves "start_time")
                [trace.CallRegisterModule (core.New 0);
                 trace.CallSetState "other" (shellapi.VInt 1);
                 trace.CallDisableModule "core"])
    by (repeat constructor; simpl; discriminate).
  split; [exact H|].
  destruct (SetState_GetState "start_time" _ H) as [Hset _].
  apply Hset.
Defined.

Lemma SetPrompt_GetPrompt_witness :
  gostrings.leadingSpace "(5s)" = false
  /\ gostrings.trailingSpace "(5s)" = false
  /\ GetPrompt (SetPrompt (initial "timer-demo" "") "(5s)") = "(5s)".
Proof.
  split; [reflexivity|]. split; [reflexivity|].
  destruct (SetPrompt_GetPrompt (initial "timer-demo" "") "(5s)")
    as (_ & _ & _ & H).
  apply H; reflexivity.
Defined.

End Instances.

(** * More of the code *)

(** ** The tables of the registry *)

Section Tables.

Import shell.

Lemma EnableModule_moduleCommands s n :
  moduleCommands (EnableModule s n).1 = moduleCommands s.
Proof.
  unfold EnableModule.
  destruct (negb _); [done|]. destruct (enabledAt _ _); [done|].
  simpl. by rewrite updateCompleter_moduleCommands.
Qed.

Lemma DisableModule_moduleCommands s n :
  moduleCommands (DisableModule s n).1 = moduleCommands s.
Proof.
  unfold DisableModule.
  destruct (String.eqb _ _); [done|].
  destruct (negb (found _ _)); [done|]. destruct (negb (enabledAt _ _)); [done|].
  simpl. by rewrite updateCompleter_moduleCommands.
Qed.

Lemma exec_moduleCommands c p :
  moduleCommands (sh (procOf (exec c p))) = moduleCommands (sh p).
Proof.
  revert p. induction c as [| | |n k IH|n k IH| | | | | | | | |]; intros p;
    simpl; try done; rewrite ?IHc, ?H; try done.
  - destruct (EnableModule (sh p) n) as [s err] eqn:He.
    rewrite IH. simpl. rewrite (fst_eq _ _ _ He).
    apply EnableModule_moduleCommands.
  - destruct (DisableModule (sh p) n) as [s err] eqn:He.
    rewrite IH. simpl. rewrite (fst_eq _ _ _ He).
    apply DisableModule_moduleCommands.
  - destruct (cobra.Commands _) as [r cmds]. by rewrite H.
Qed.

(** X2: [RegisterModule] records the commands of the module under its
    name, in place of what was recorded under that name, and leaves the
    entries of the other names alone.  This is for a module whose
    [Initialize] calls the methods of [shellapi.Prog] only: none of
    these calls changes the table (code that writes into the map
    [GetModuleCommands()] returns is not covered). *)
Theorem RegisterModule_records_commands (m : module.CommandModule) (p : Proc) :
  moduleCommands (sh (procOf (RegisterModule m p)))
  = <[module.Name m := module.GetCommands m]> (moduleCommands (sh p)).
Proof.
  unfold RegisterModule.
  pose proof (exec_moduleCommands (module.Initialize m)
                (setSh (attach m (sh p)) p)) as He.
  destruct (exec _ _) as [p'|code p']; simpl in *.
  - by rewrite updateCompleter_moduleCommands.
  - done.
Qed.

Lemma EnableModule_enabledModules s n :
  enabledModules (EnableModule s n).1
  = if found s n && negb (enabledAt s n)
    then <[n := true]> (enabledModules s) else enabledModules s.
Proof.
  unfold EnableModule.
  destruct (found s n); simpl; [|done]. destruct (enabledAt s n); simpl; [done|].
  by rewrite updateCompleter_enabledModules.
Qed.

Lemma DisableModule_enabledModules s n :
  enabledModules (DisableModule s n).1
  = if negb (String.eqb n "core") && found s n && enabledAt s n
    then <[n := false]> (enabledModules s) else enabledModules s.
Proof.
  unfold DisableModule.
  destruct (String.eqb n "core"); simpl; [done|].
  destruct (found s n); simpl; [|done]. destruct (enabledAt s n); simpl; [|done].
  by rewrite updateCompleter_enabledModules.
Qed.

Lemma tracked_ext s s' :
  commandModules s' = commandModules s ->
  enabledModules s' = enabledModules s ->
  (forall n, is_Some (moduleCommands s' !! n) <-> is_Some (moduleCommands s !! n)) ->
  tables.tracked s -> tables.tracked s'.
Proof.
  intros Hm He Hc (T1 & T2 & T3). unfold tables.tracked, GetModules.
  rewrite Hm, He. repeat split; try apply T1; try done.
  - rewrite Hc. apply T2.
  - rewrite Hc. apply T2.
Qed.

Lemma tracked_insert s s' n b :
  commandModules s' = commandModules s ->
  enabledModules s' = <[n := b]> (enabledModules s) ->
  moduleCommands s' = moduleCommands s ->
  n ∈ GetModules s -> (n = "core" -> b = true) ->
  tables.tracked s -> tables.tracked s'.
Proof.
  intros Hm He Hc Hn Hcore (T1 & T2 & T3). unfold tables.tracked, GetModules.
  rewrite Hm, He, Hc. repeat split; try apply T2.
  - rewrite lookup_insert. destruct (decide (n = n0)) as [<-|Hne]; [done|].
    apply T1.
  - intros Hin. rewrite lookup_insert.
    destruct (decide (n = n0)) as [<-|Hne]; [eauto|]. by apply T1.
  - rewrite lookup_insert. destruct (decide (n = "core")) as [Heq|Hne]; [|done].
    rewrite (Hcore Heq). discriminate.
Qed.

Lemma EnableModule_tracked s n :
  tables.tracked s -> tables.tracked (EnableModule s n).1.
Proof.
  intros Ht.
  pose proof (EnableModule_enabledModules s n) as He.
  destruct (found s n) eqn:Hf; simpl in He.
  - destruct (enabledAt s n); simpl in He.
    + apply (tracked_ext s); try done.
      * apply EnableModule_commandModules.
      * by rewrite EnableModule_moduleCommands.
    + apply (tracked_insert s _ n true); try done.
      * apply EnableModule_commandModules.
      * apply EnableModule_moduleCommands.
      * by apply found_spec.
  - apply (tracked_ext s); try done.
    + apply EnableModule_commandModules.
    + by rewrite EnableModule_moduleCommands.
Qed.

Lemma DisableModule_tracked s n :
  tables.tracked s -> tables.tracked (DisableModule s n).1.
Proof.
  intros Ht.
  pose proof (DisableModule_enabledModules s n) as He.
  destruct (negb (String.eqb n "core") && found s n && enabledAt s n) eqn:Hc.
  - apply andb_prop in Hc as [Hc _]. apply andb_prop in Hc as [Hcore Hf].
    apply (tracked_insert s _ n false); try done.
    + apply DisableModule_commandModules.
    + apply DisableModule_moduleCommands.
    + by apply found_spec.
    + intros ->. done.
  - apply (tracked_ext s); try done.
    + apply DisableModule_commandModules.
    + by rewrite DisableModule_moduleCommands.
Qed.

Lemma attach_tracked m s : tables.tracked s -> tables.tracked (attach m s).
Proof.
  intros (T1 & T2 & T3). unfold tables.tracked, GetModules, attach. simpl.
  assert (Hin : forall n, n ∈ map module.Name (commandModules s ++ [m])
                          <-> n = module.Name m \/ n ∈ GetModules s).
  { intros n. rewrite map_app, elem_of_app. simpl.
    rewrite list_elem_of_singleton. unfold GetModules. tauto. }
  repeat split.
  - rewrite lookup_insert, Hin.
    destruct (decide (module.Name m = n)) as [<-|Hne]; [auto|].
    intros Hs. right. by apply T1.
  - rewrite lookup_insert, Hin.
    destruct (decide (module.Name m = n)) as [<-|Hne]; [eauto|].
    intros [->|Hn]; [done|]. by apply T1.
  - rewrite lookup_insert, Hin.
    destruct (decide (module.Name m = n)) as [<-|Hne]; [auto|].
    intros Hs. right. by apply T2.
  - rewrite lookup_insert, Hin.
    destruct (decide (module.Name m = n)) as [<-|Hne]; [eauto|].
    intros [->|Hn]; [done|]. by apply T2.
  - rewrite lookup_insert.
    destruct (decide (module.Name m = "core")); [discriminate|done].
Qed.

Lemma exec_tracked c p :
  tables.tracked (sh p) -> tables.tracked (sh (procOf (exec c p))).
Proof.
  revert p. induction c as [| | |n k IH|n k IH| | |k IH| | | | | |]; intros p Ht;
    simpl; try done; try (by apply IHc); try (by apply H);
    try (apply IHc; simpl; by apply (tracked_ext (sh p))).
  - destruct (EnableModule (sh p) n) as [s err] eqn:He.
    apply IH. simpl. rewrite (fst_eq _ _ _ He). by apply EnableModule_tracked.
  - destruct (DisableModule (sh p) n) as [s err] eqn:He.
    apply IH. simpl. rewrite (fst_eq _ _ _ He). by apply DisableModule_tracked.
  - destruct (cobra.Commands _) as [r cmds]. apply IH. simpl.
    by apply (tracked_ext (sh p)).
Qed.

Lemma updateCompleter_tracked s :
  tables.tracked s -> tables.tracked (updateCompleter s).
Proof.
  apply tracked_ext.
  - apply updateCompleter_commandModules.
  - apply updateCompleter_enabledModules.
  - by rewrite updateCompleter_moduleCommands.
Qed.

Lemma OnExit_tracked s fn : tables.tracked s -> tables.tracked (OnExit s fn).
Proof.
  apply tracked_ext.
  - apply OnExit_commandModules.
  - unfold OnExit. destruct (cobra.Commands _) as [r cmds].
    by destruct (List.find _ _).
  - intros n. unfold OnExit. destruct (cobra.Commands _) as [r cmds].
    destruct (List.find _ _); simpl; [|done].
    rewrite lookup_fmap. by rewrite fmap_is_Some.
Qed.

Lemma step_tracked call p :
  tables.tracked (sh p) -> tables.tracked (sh (procOf (trace.step call p))).
Proof.
  intros Ht. destruct call; simpl.
  - unfold RegisterModule.
    pose proof (exec_tracked (module.Initialize m)
                  (setSh (attach m (sh p)) p) (attach_tracked m _ Ht)) as He.
    destruct (exec _ _) as [p'|code p']; simpl in *; [|done].
    by apply updateCompleter_tracked.
  - by apply EnableModule_tracked.
  - by apply DisableModule_tracked.
  - by apply (tracked_ext (sh p)).
  - by apply (tracked_ext (sh p)).
  - by apply (tracked_ext (sh p)).
  - by apply OnExit_tracked.
  - by apply exec_tracked.
Qed.

Lemma run_tracked calls p :
  tables.tracked (sh p) -> tables.tracked (sh (procOf (trace.run calls p))).
Proof.
  revert p. induction calls as [|call calls IH]; intros p Ht; simpl; [done|].
  pose proof (step_tracked call p Ht) as Hs.
  destruct (trace.step call p) as [p'|code p']; simpl in *; [by apply IH|done].
Qed.

Lemma initial_tracked rootCmdName banner :
  tables.tracked (initial rootCmdName banner).
Proof.
  unfold tables.tracked, GetModules. simpl. repeat split.
  - rewrite lookup_empty. by intros [? ?].
  - by intros ?%elem_of_nil.
  - rewrite lookup_empty. by intros [? ?].
  - by intros ?%elem_of_nil.
  - by rewrite lookup_empty.
Qed.

(** X7: whatever calls were made on a new shell, the enablement table,
    which the shell hands to no one, has an entry for the name of every
    registered module and for no other name. *)
Theorem tables_track_registered_modules
  (rootCmdName banner : string) (calls : list trace.Call) (n : string) :
  let s := trace.after calls (initial rootCmdName banner) in
  is_Some (enabledModules s !! n) <-> n ∈ GetModules s.
Proof.
  intros s.
  assert (Ht : tables.tracked s) by apply run_tracked, initial_tracked.
  destruct Ht as (T1 & _ & _). apply T1.
Qed.

(** X8: whatever calls were made on a new shell, [IsModuleEnabled]
    answers false for a name that is not registered, and true for core
    once a module of that name is registered: nothing sets the entry
    of core to false. *)
Theorem IsModuleEnabled_unregistered_and_core
  (rootCmdName banner : string) (calls : list trace.Call) :
  let s := trace.after calls (initial rootCmdName banner) in
  (forall n, n ∉ GetModules s -> IsModuleEnabled s n = false)
  /\ ("core" ∈ GetModules s -> IsModuleEnabled s "core" = true).
Proof.
  intros s.
  assert (Ht : tables.tracked s) by apply run_tracked, initial_tracked.
  destruct Ht as (T1 & _ & T3). unfold IsModuleEnabled, enabledAt. split.
  - intros n Hn. destruct (enabledModules s !! n) eqn:He; [|done].
    exfalso. apply Hn, T1. eauto.
  - intros Hc. apply T1 in Hc as [b Hb]. rewrite Hb.
    destruct b; [done|]. by rewrite Hb in T3.
Qed.

End Tables.

(** ** What EnableModule and DisableModule return *)

Section Results.

Import shell.

Lemma enabledAt_insert e s n b n' :
  enabledModules s = <[n := b]> e ->
  enabledAt s n' = if decide (n = n') then b else default false (e !! n').
Proof.
  intros He. unfold enabledAt. rewrite He, lookup_insert.
  by destruct (decide (n = n')).
Qed.

(** X4: [EnableModule] returns nil exactly for the name of a registered
    module; the module is then enabled, whether it was before or not.
    In every case the other modules are enabled as before and the list
    of the modules is the same. *)
Theorem EnableModule_result (s : Shell) (n : string) :
  ((EnableModule s n).2 = None <-> n ∈ GetModules s)
  /\ (n ∈ GetModules s -> IsModuleEnabled (EnableModule s n).1 n = true)
  /\ (forall n', n' <> n ->
        IsModuleEnabled (EnableModule s n).1 n' = IsModuleEnabled s n')
  /\ GetModules (EnableModule s n).1 = GetModules s.
Proof.
  rewrite <- found_spec. unfold IsModuleEnabled, GetModules.
  rewrite EnableModule_commandModules.
  pose proof (EnableModule_enabledModules s n) as He.
  unfold EnableModule. unfold EnableModule in He.
  destruct (found s n) eqn:Hf; simpl in *.
  - destruct (enabledAt s n) eqn:Hen; simpl in *.
    + repeat split; done.
    + repeat split; try done.
      * intros _. rewrite (enabledAt_insert _ _ _ _ n He). by rewrite decide_True.
      * intros n' Hne. rewrite (enabledAt_insert _ _ _ _ n' He).
        by rewrite decide_False.
  - repeat split; done.
Qed.

(** X5: [DisableModule] returns nil exactly for the name of a registered
    module other than core; the module is then disabled, whether it was
    before or not.  In every case the other modules are enabled as
    before and the list of the modules is the same. *)
Theorem DisableModule_result (s : Shell) (n : string) :
  ((DisableModule s n).2 = None <-> n <> "core" /\ n ∈ GetModules s)
  /\ ((DisableModule s n).2 = None ->
      IsModuleEnabled (DisableModule s n).1 n = false)
  /\ (forall n', n' <> n ->
        IsModuleEnabled (DisableModule s n).1 n' = IsModuleEnabled s n')
  /\ GetModules (DisableModule s n).1 = GetModules s.
Proof.
  rewrite <- found_spec. unfold IsModuleEnabled, GetModules.
  rewrite DisableModule_commandModules.
  pose proof (DisableModule_enabledModules s n) as He.
  unfold DisableModule. unfold DisableModule in He.
  destruct (String.eqb n "core") eqn:Hc; simpl in *.
  { apply String.eqb_eq in Hc. repeat split; try done. by intros [? _]. }
  apply String.eqb_neq in Hc.
  destruct (found s n) eqn:Hf; simpl in *.
  - destruct (enabledAt s n) eqn:Hen; simpl in *.
    + repeat split; try done.
      * intros _. rewrite (enabledAt_insert _ _ _ _ n He). by rewrite decide_True.
      * intros n' Hne. rewrite (enabledAt_insert _ _ _ _ n' He).
        by rewrite decide_False.
    + repeat split; done.
  - repeat split; try done. by intros [_ ?].
Qed.

End Results.

(** ** The list of the modules and the completer *)

Section Order.

Import shell.

Lemma step_commandModules call p :
  commandModules (sh (procOf (trace.step call p)))
  = commandModules (sh p) ++ trace.registered [call].
Proof.
  destruct call; simpl;
    rewrite ?EnableModule_commandModules, ?DisableModule_commandModules,
      ?OnExit_commandModules, ?exec_commandModules, ?app_nil_r; try done.
  apply RegisterModule_commandModules.
Qed.

Lemma run_commandModules calls p p' :
  trace.run calls p = Running p' ->
  commandModules (sh p') = commandModules (sh p) ++ trace.registered calls.
Proof.
  revert p. induction calls as [|call calls IH]; intros p.
  - simpl. intros [= <-]. by rewrite app_nil_r.
  - pose proof (step_commandModules call p) as Hs.
    rewrite registered_cons. simpl.
    destruct (trace.step call p) as [p1|code p1]; [|done].
    intros Hrun. rewrite (IH _ Hrun). simpl in Hs. rewrite Hs.
    by rewrite <- app_assoc.
Qed.

(** X9: after calls on a new shell that have left the process running,
    [GetModules] returns the names of the modules passed to
    [RegisterModule], in the order of the registrations and as often as
    they were registered. *)
Theorem GetModules_registration_order
  (rootCmdName banner : string) (out : list string)
  (calls : list trace.Call) (p' : Proc)
  (Hrun : trace.run calls {| sh := initial rootCmdName banner; stdout := out |}
          = Running p') :
  GetModules (sh p') = registry.names (trace.registered calls).
Proof.
  unfold GetModules. by rewrite (run_commandModules _ _ _ Hrun).
Qed.

Lemma Commands_sorted_flag r :
  cobra.commandsAreSorted r = true -> cobra.Commands r = (r, cobra.commands r).
Proof. unfold cobra.Commands. by intros ->. Qed.

Lemma Commands_flag r : cobra.commandsAreSorted (cobra.Commands r).1 = true.
Proof.
  unfold cobra.Commands. by destruct (cobra.commandsAreSorted r) eqn:Hf.
Qed.

Lemma updateCompleter_completed s : tables.completed (updateCompleter s).
Proof.
  unfold tables.completed, updateCompleter.
  pose proof (Commands_flag (rootCmd s)) as Hflag.
  pose proof (Commands_commands (rootCmd s)) as Hcmds.
  destruct (cobra.Commands (rootCmd s)) as [r cmds]. simpl in *.
  rewrite Hcmds. split; [done|].
  by rewrite (Commands_sorted_flag r Hflag).
Qed.

Lemma completed_ext s s' :
  readline.AutoComplete (rl s') = readline.AutoComplete (rl s) ->
  cobra.commands (rootCmd s') = cobra.commands (rootCmd s) ->
  cobra.commandsAreSorted (rootCmd s') = cobra.commandsAreSorted (rootCmd s) ->
  tables.completed s -> tables.completed s'.
Proof.
  unfold tables.completed, cobra.Commands. intros -> -> ->.
  by destruct (cobra.commandsAreSorted (rootCmd s)).
Qed.

Lemma EnableModule_completed s n :
  tables.completed s -> tables.completed (EnableModule s n).1.
Proof.
  intros Hc. unfold EnableModule.
  destruct (negb _); [done|]. destruct (enabledAt _ _); [done|].
  apply updateCompleter_completed.
Qed.

Lemma DisableModule_completed s n :
  tables.completed s -> tables.completed (DisableModule s n).1.
Proof.
  intros Hc. unfold DisableModule.
  destruct (String.eqb _ _); [done|].
  destruct (negb (found _ _)); [done|]. destruct (negb (enabledAt _ _)); [done|].
  apply updateCompleter_completed.
Qed.

Lemma Commands_completed s :
  tables.completed s ->
  tables.completed (setRootCmd (cobra.Commands (rootCmd s)).1 s).
Proof.
  intros [Ha Hc]. unfold tables.completed. simpl.
  rewrite Commands_commands, Hc. split; [done|].
  rewrite (Commands_sorted_flag _ (Commands_flag _)). simpl.
  by rewrite Commands_commands.
Qed.

Lemma exec_completed c p :
  tables.completed (sh p) -> tables.completed (sh (procOf (exec c p))).
Proof.
  revert p. induction c as [| | |n k IH|n k IH| | |k IH| | | | | |]; intros p Hc;
    simpl; try done; try (by apply IHc); try (by apply H);
    try (apply IHc; simpl; by apply (completed_ext (sh p))).
  - destruct (EnableModule (sh p) n) as [s err] eqn:He.
    apply IH. simpl. rewrite (fst_eq _ _ _ He). by apply EnableModule_completed.
  - destruct (DisableModule (sh p) n) as [s err] eqn:He.
    apply IH. simpl. rewrite (fst_eq _ _ _ He). by apply DisableModule_completed.
  - pose proof (Commands_completed (sh p) Hc) as Hc'.
    destruct (cobra.Commands _) as [r cmds]. apply IH. by simpl in *.
Qed.

Lemma assignRun_names p run l :
  map cobra.Name (shell.assignRun p run l) = map cobra.Name l.
Proof.
  unfold assignRun. rewrite map_map. apply map_ext. intros c.
  by destruct (decide (cobra.ptr c = p)).
Qed.

Lemma OnExit_completed s fn :
  tables.completed s -> tables.completed (OnExit s fn).
Proof.
  intros Hc. pose proof (Commands_completed s Hc) as [Ha Hs].
  pose proof (Commands_flag (rootCmd s)) as Hflag.
  unfold OnExit. destruct (cobra.Commands (rootCmd s)) as [r cmds].
  simpl in *. destruct (List.find _ _) as [cmd|]; [|by split].
  unfold tables.completed. simpl. rewrite assignRun_names. split; [done|].
  unfold cobra.Commands. simpl. by rewrite Hflag.
Qed.

Lemma step_completed call p p' :
  tables.completed (sh p) -> trace.step call p = Running p' ->
  tables.completed (sh p').
Proof.
  intros Hc. destruct call; simpl.
  - unfold RegisterModule. destruct (exec _ _) as [p1|code p1]; [|done].
    intros [= <-]. apply updateCompleter_completed.
  - intros [= <-]. by apply EnableModule_completed.
  - intros [= <-]. by apply DisableModule_completed.
  - intros [= <-]. by apply (completed_ext (sh p)).
  - intros [= <-]. by apply (completed_ext (sh p)).
  - intros [= <-]. by apply (completed_ext (sh p)).
  - intros [= <-]. by apply OnExit_completed.
  - intros Hrun. pose proof (exec_completed c p Hc) as He.
    by rewrite Hrun in He.
Qed.

Lemma run_completed calls p p' :
  tables.completed (sh p) -> trace.run calls p = Running p' ->
  tables.completed (sh p').
Proof.
  revert p. induction calls as [|call calls IH]; intros p Hc; simpl.
  - by intros [= <-].
  - pose proof (step_completed call p) as Hs.
    destruct (trace.step call p) as [p1|code p1]; [|done].
    apply IH. by apply (Hs p1).
Qed.

(** X11: after calls of methods of a new shell ([RegisterModule],
    [EnableModule], [DisableModule], [SetState], [SetPrompt],
    [PrintAlert], [OnExit]; no command has been executed) that have
    left the process running, the words the completer offers are the
    names of the commands that are on the root command, one word per
    command and in the order of [Commands()]. *)
Theorem completer_offers_the_namespace
  (rootCmdName banner : string) (out : list string)
  (calls : list trace.Call) (p' : Proc)
  (Hcalls : forallb trace.methodCall calls = true)
  (Hrun : trace.run calls {| sh := initial rootCmdName banner; stdout := out |}
          = Running p') :
  readline.AutoComplete (rl (sh p'))
  = map cobra.Name (registry.namespace (sh p'))
  /\ (cobra.Commands (GetRootCmd (sh p'))).2 = registry.namespace (sh p').
Proof.
  apply (run_completed calls
           {| sh := initial rootCmdName banner; stdout := out |} p' );
    [by split|done].
Qed.

End Order.

(** ** What the listing of help shows *)

Section Listing.

Import shell.

(** X14: for help without arguments, every group of the listing is the
    group of an enabled module and has a command; every command it
    shows is on the root command at that time, and it is there under
    the name of a command the module has recorded, or it is the help
    command in the group of core. *)
Theorem help_lists_registered_commands
  (s : Shell) (order : list (string * bool)) (g : string * list cobra.Command)
  (Horder : rangeOrder s order)
  (Hshown : g ∈ core.shown (view s order)) :
  IsModuleEnabled s g.1 = true
  /\ g.2 <> []
  /\ forall c, c ∈ g.2 ->
       c ∈ registry.namespace s
       /\ ((exists c0, c0 ∈ commandsAt s g.1 /\ cobra.Name c0 = cobra.Name c)
           \/ (g.1 = "core" /\ cobra.Name c = "help")).
Proof.
  unfold core.shown in Hshown.
  apply list_elem_of_omap in Hshown as (n & Hn & Hg).
  destruct (core.groups (view s order) !! n) as [[|c0 cmds]|] eqn:Hgroups;
    try done.
  injection Hg as <-. simpl. split; [|split; [done|]].
  - by apply (GetEnabledModules_spec s order n Horder).
  - intros c Hc.
    destruct (groups_elem _ _ _ c Hgroups Hc) as [Hroot Hname].
    split; [|exact Hname].
    simpl in Hroot. by rewrite Commands_perm in Hroot.
Qed.

Lemma DisableModule_ok s n :
  (DisableModule s n).2 = None ->
  n ∈ GetModules s /\ enabledAt (DisableModule s n).1 n = false.
Proof.
  rewrite <- found_spec.
  pose proof (DisableModule_enabledModules s n) as He.
  unfold DisableModule. unfold DisableModule in He.
  destruct (String.eqb n "core"); simpl in *; [done|].
  destruct (found s n); simpl in *; [|done].
  destruct (enabledAt s n) eqn:Hen; simpl in *.
  - intros _. split; [done|].
    rewrite (enabledAt_insert _ _ _ _ n He). by rewrite decide_True.
  - done.
Qed.

(** X15: once [DisableModule] has returned nil for a module, help without
    arguments shows no group for it and has its name in the list of
    the disabled modules, whatever the order of the loop. *)
Theorem help_after_DisableModule
  (s : Shell) (n : string) (order : list (string * bool))
  (Hdisabled : (DisableModule s n).2 = None)
  (Horder : rangeOrder (DisableModule s n).1 order) :
  (n ∉ help.groupNames (DisableModule s n).1 order)
  /\ n ∈ core.disabled (view (DisableModule s n).1 order).
Proof.
  destruct (DisableModule_ok s n Hdisabled) as [Hreg Hoff]. split.
  - unfold help.groupNames. rewrite shown_keys.
    intros Hin. apply list_elem_of_filter in Hin as [_ Hin]. simpl in Hin.
    apply (GetEnabledModules_spec _ order n Horder) in Hin.
    unfold IsModuleEnabled in Hin. by rewrite Hoff in Hin.
  - unfold core.disabled. apply list_elem_of_filter. simpl. split; [done|].
    unfold GetModules. by rewrite DisableModule_commandModules.
Qed.

(** X10: whatever calls were made on a new shell, [GetEnabledModules]
    returns every enabled module once, and its names are those of the
    registered modules that are enabled: the names [GetModules] lists
    and [IsModuleEnabled] answers true for. *)
Theorem GetEnabledModules_are_the_enabled
  (rootCmdName banner : string) (calls : list trace.Call)
  (order : list (string * bool))
  (Horder : rangeOrder (trace.after calls (initial rootCmdName banner)) order) :
  NoDup (GetEnabledModules (trace.after calls (initial rootCmdName banner)) order)
  /\ forall n,
       n ∈ GetEnabledModules (trace.after calls (initial rootCmdName banner)) order
       <-> n ∈ help.enabledInOrder (trace.after calls (initial rootCmdName banner)).
Proof.
  set (s := trace.after calls (initial rootCmdName banner)) in *.
  assert (Ht : tables.tracked s) by apply run_tracked, initial_tracked.
  destruct Ht as (T1 & _ & _).
  split; [by apply GetEnabledModules_NoDup|].
  intros n. rewrite (GetEnabledModules_spec s order n Horder).
  unfold help.enabledInOrder. rewrite list_elem_of_filter.
  split; [|tauto]. intros Hen. split; [done|].
  apply T1. unfold IsModuleEnabled, enabledAt in Hen.
  destruct (enabledModules s !! n); [eauto|done].
Qed.

Lemma find_none_filter {A} (f : A -> bool) (l : list A) :
  (forall x, x ∈ l -> f x = false) -> List.find f l = None.
Proof.
  intros Hall. induction l as [|x l IH]; simpl; [done|].
  rewrite (Hall x) by left. apply IH. intros y Hy. apply Hall. by right.
Qed.

(** X16: help for one word shows the details of a command that is on the
    root command whenever one has this word as its name, and it
    reports an unknown command when the word is neither the name of a
    command there nor the joined names of one. *)
Theorem help_for_a_command
  (s : Shell) (order : list (string * bool)) (onRoot : bool)
  (cmdName : string) (rest : list string) :
  ((exists c, c ∈ registry.namespace s /\ cobra.Name c = cmdName) ->
   exists c', c' ∈ registry.namespace s
              /\ core.matches cmdName c' = true
              /\ core.helpFunc (view s order) onRoot (cmdName :: rest)
                 = core.Printed (core.renderDetail c'))
  /\ ((forall c, c ∈ registry.namespace s -> core.matches cmdName c = false) ->
      core.helpFunc (view s order) onRoot (cmdName :: rest)
      = core.Printed ["Unknown command: " +:+ cmdName]).
Proof.
  simpl. unfold core.commandHelp. simpl. split.
  - intros (c & Hc & Hname).
    assert (Hc' : c ∈ (cobra.Commands (rootCmd s)).2)
      by (by rewrite Commands_perm).
    assert (Hm : core.matches cmdName c = true).
    { unfold core.matches. rewrite Hname, String.eqb_refl. done. }
    destruct (find_elem (core.matches cmdName) _ c Hc' Hm) as [c' Hfind].
    rewrite Hfind. exists c'. apply find_some in Hfind as [Hin Hm'].
    apply list_elem_of_In in Hin. rewrite Commands_perm in Hin. done.
  - intros Hnone. rewrite find_none_filter; [done|].
    intros c Hc. apply Hnone. by rewrite Commands_perm in Hc.
Qed.

End Listing.

(** ** The commands of the core module *)

Section CoreCommands.

Import shell.

Lemma exec_printModules names k p :
  exec (core.printModules names k) p
  = exec k {| sh := sh p;
              stdout := stdout p ++ map (tables.moduleLine (sh p)) names |}.
Proof.
  revert p. induction names as [|n names IH]; intros p; simpl.
  - rewrite app_nil_r. by destruct p.
  - rewrite IH. simpl. by rewrite <- app_assoc.
Qed.

(** X17: the modules command prints its header and then one line for
    every registered module, in the order of the registrations, with
    the name padded to 15 runes and the state [IsModuleEnabled] gives;
    it changes nothing in the shell and returns.  The padding counts
    runes as [utf8.RuneCountInString] does: the name made of the byte
    of a and the byte 0x85, which is no UTF-8, counts for two and gets
    13 spaces, and a name of two bytes that encode one rune gets 14. *)
Theorem modules_command_lists_the_modules (args : list string) (p : Proc) :
  exec (core.modulesRun args) p
  = Running {| sh := sh p;
               stdout := stdout p
                         ++ "Available modules:"
                            :: map (tables.moduleLine (sh p)) (GetModules (sh p)) |}
  /\ gostrings.padRight 15 (String "a" (String "133" EmptyString))
     = String "a" (String "133" EmptyString) +:+ gostrings.spaces 13
  /\ gostrings.padRight 15 (String "195" (String "169" EmptyString))
     = String "195" (String "169" EmptyString) +:+ gostrings.spaces 14.
Proof.
  split; [|split; reflexivity].
  unfold core.modulesRun. simpl. rewrite exec_printModules. simpl.
  by rewrite <- app_assoc.
Qed.

(** X18: the enable and the disable command call the method with their
    first argument, print the error it returns or else the line of
    success, and return; so disable with the argument core prints that
    the core module cannot be disabled and leaves the shell as it is.
    Called without an argument their [Run] panics. *)
Theorem enable_and_disable_commands
  (moduleName : string) (rest : list string) (p : Proc) :
  exec (core.enableRun (moduleName :: rest)) p
  = Running {| sh := (EnableModule (sh p) moduleName).1;
               stdout := stdout p
                 ++ [tables.report (EnableModule (sh p) moduleName).2
                       ("Module '" +:+ moduleName +:+ "' enabled")] |}
  /\ exec (core.disableRun (moduleName :: rest)) p
     = Running {| sh := (DisableModule (sh p) moduleName).1;
                  stdout := stdout p
                    ++ [tables.report (DisableModule (sh p) moduleName).2
                          ("Module '" +:+ moduleName +:+ "' disabled")] |}
  /\ exec (core.disableRun ("core" :: rest)) p
     = Running {| sh := sh p;
                  stdout := stdout p ++ ["Error: cannot disable core module"] |}
  /\ exec (core.enableRun []) p = Exited 2 p
  /\ exec (core.disableRun []) p = Exited 2 p.
Proof.
  repeat split.
  - simpl. by destruct (EnableModule (sh p) moduleName) as [s [e|]].
  - simpl. by destruct (DisableModule (sh p) moduleName) as [s [e|]].
Qed.

End CoreCommands.

(** ** OnExit on a shell without an exit command *)

Section NoExit.

Import shell.

(** X12: on a shell whose root command has no command of the name exit,
    [OnExit] drops the handler: it only has [Commands()] sort the
    commands, and the handler is in the [Run] of no command. *)
Theorem OnExit_without_exit_command (s : Shell) (fn : shellapi.Prog)
  (Hnone : forall c, c ∈ registry.namespace s -> cobra.Name c <> "exit") :
  OnExit s fn = setRootCmd (cobra.Commands (rootCmd s)).1 s.
Proof.
  unfold OnExit.
  pose proof (Commands_perm (rootCmd s)) as Hperm.
  destruct (cobra.Commands (rootCmd s)) as [r cmds]. simpl in *.
  rewrite find_none_filter; [done|].
  intros c Hc. apply String.eqb_neq, Hnone. by rewrite <- Hperm.
Qed.

End NoExit.

(** ** Disabling a module and enabling it again *)

Section RoundTrip.

Import shell registry.

Lemma trace_wellFormed rootCmdName banner calls :
  forallb trace.registryCall calls = true ->
  NoDup (names (trace.registered calls)) ->
  NoDup (descriptors (trace.registered calls)) ->
  wellFormed (trace.after calls (initial rootCmdName banner)).
Proof.
  intros Hcalls Hn Hd. unfold trace.after.
  apply run_wellFormed; try done. apply initial_wellFormed.
Qed.

(** X6: on a shell built by calls of [RegisterModule], [EnableModule]
    and [DisableModule] with modules of different names and commands,
    [DisableModule] on an enabled module other than core takes from
    the root command the commands recorded for the module and no
    other, and [EnableModule] right after it brings back the same
    commands and the same enablement table. *)
Theorem DisableModule_then_EnableModule
  (rootCmdName banner : string) (calls : list trace.Call) (n : string)
  (Hcalls : forallb trace.registryCall calls = true)
  (Hnames : NoDup (names (trace.registered calls)))
  (Hdescriptors : NoDup (descriptors (trace.registered calls)))
  (Hregistered : n ∈ GetModules (trace.after calls (initial rootCmdName banner)))
  (Hcore : n <> "core")
  (Henabled : IsModuleEnabled (trace.after calls (initial rootCmdName banner)) n
              = true) :
  let s := trace.after calls (initial rootCmdName banner) in
  let s1 := (DisableModule s n).1 in
  let s2 := (EnableModule s1 n).1 in
  (forall c, c ∈ namespace s1
             <-> c ∈ namespace s
                 /\ cobra.ptr c ∉ map cobra.ptr (commandsAt s n))
  /\ namespace s2 ≡ₚ namespace s
  /\ enabledModules s2 = enabledModules s
  /\ GetModuleCommands s2 = GetModuleCommands s
  /\ GetModules s2 = GetModules s.
Proof.
  intros s s1 s2.
  change (n ∈ GetModules s) in Hregistered.
  change (IsModuleEnabled s n = true) in Henabled.
  assert (Hwf : wellFormed s) by by apply trace_wellFormed.
  assert (Hwf1 : wellFormed s1) by by apply DisableModule_wellFormed.
  assert (Hwf2 : wellFormed s2) by by apply EnableModule_wellFormed.
  assert (Hf : found s n = true) by by apply found_spec.
  assert (Hf1 : found s1 n = true).
  { rewrite <- Hf. apply found_ext, DisableModule_commandModules. }
  assert (He1 : enabledModules s1 = <[n := false]> (enabledModules s)).
  { unfold s1. rewrite DisableModule_enabledModules.
    unfold IsModuleEnabled in Henabled. rewrite Hf, Henabled.
    by apply String.eqb_neq in Hcore as ->. }
  assert (Hlook : enabledModules s !! n = Some true).
  { unfold IsModuleEnabled, enabledAt in Henabled.
    by destruct (enabledModules s !! n) as [[]|]. }
  assert (He2 : enabledModules s2 = enabledModules s).
  { unfold s2. rewrite EnableModule_enabledModules, Hf1.
    rewrite (enabledAt_insert _ s1 n false n He1), decide_True by done.
    simpl. rewrite He1, insert_insert_eq. by apply insert_id. }
  assert (Hms1 : commandModules s1 = commandModules s)
    by apply DisableModule_commandModules.
  assert (Hms2 : commandModules s2 = commandModules s).
  { unfold s2. by rewrite EnableModule_commandModules. }
  apply found_module in Hf as (m & Hm & Hname).
  split; [|split; [|split; [done|split]]].
  - intros c. rewrite (wf_namespace s1 Hwf1), (wf_namespace s Hwf).
    rewrite He1, Hms1, <- Hname.
    rewrite enabledIn_insert_false;
      [|apply (wf_names s Hwf)|apply (wf_descriptors s Hwf)|done].
    rewrite list_elem_of_filter.
    unfold commandsAt. rewrite (wf_commands s Hwf m Hm). simpl. tauto.
  - rewrite (wf_namespace s2 Hwf2), (wf_namespace s Hwf). by rewrite He2, Hms2.
  - unfold GetModuleCommands, s2, s1.
    by rewrite EnableModule_moduleCommands, DisableModule_moduleCommands.
  - unfold GetModules. by rewrite Hms2.
Qed.

End RoundTrip.

(** ** The prompt GetPrompt returns *)

Section Trimmed.

Import gostrings.

Lemma cutPrefix_app w l r k :
  cutPrefix w l = Some r -> cutPrefix w (l ++ k) = Some (r ++ k).
Proof.
  revert l. induction w as [|a w IH]; intros [|b l]; simpl; try done.
  - by intros [= <-].
  - by intros [= <-].
  - destruct (Ascii.eqb a b); [apply IH|done].
Qed.

Lemma cutPrefix_split w l r : cutPrefix w l = Some r -> l = w ++ r.
Proof.
  revert l. induction w as [|a w IH]; intros [|b l]; simpl; try done.
  - by intros [= <-].
  - by intros [= <-].
  - destruct (Ascii.eqb a b) eqn:Heq; [|done].
    apply Ascii.eqb_eq in Heq as ->. intros H. by rewrite (IH _ H).
Qed.

Lemma cutAny_app pats l k :
  cutAny pats (l ++ k) = None -> cutAny pats l = None.
Proof.
  induction pats as [|w pats IH]; simpl; [done|].
  destruct (cutPrefix w l) as [r|] eqn:Hcut.
  - by rewrite (cutPrefix_app _ _ _ k Hcut).
  - destruct (cutPrefix w (l ++ k)); [done|apply IH].
Qed.

Lemma cutAny_split pats l r : cutAny pats l = Some r -> exists w, l = w ++ r.
Proof.
  induction pats as [|w pats IH]; simpl; [done|].
  destruct (cutPrefix w l) as [r'|] eqn:Hcut; [|apply IH].
  intros [= <-]. exists w. by apply cutPrefix_split.
Qed.

Lemma trimN_suffix pats n l : exists pre, l = pre ++ trimN pats n l.
Proof.
  revert l. induction n as [|n IH]; intros l; simpl; [by exists []|].
  destruct (cutAny pats l) as [r|] eqn:Hcut; [|by exists []].
  destruct (cutAny_split _ _ _ Hcut) as [w ->].
  destruct (IH r) as [pre Hpre]. exists (w ++ pre).
  rewrite <- app_assoc. by rewrite <- Hpre.
Qed.

Lemma trimN_stable pats n l :
  Forall (fun w => w <> []) pats -> (length l <= n)%nat ->
  cutAny pats (trimN pats n l) = None.
Proof.
  intros Hne. revert l. induction n as [|n IH]; intros l Hlen; simpl.
  - destruct (cutAny pats l) as [r|] eqn:Hcut; [|done].
    apply (cutAny_shorter _ _ _ Hne) in Hcut. lia.
  - destruct (cutAny pats l) as [r|] eqn:Hcut; [|done].
    apply IH. apply (cutAny_shorter _ _ _ Hne) in Hcut. lia.
Qed.

Lemma TrimSpace_trimmed x :
  leadingSpace (TrimSpace x) = false /\ trailingSpace (TrimSpace x) = false.
Proof.
  unfold leadingSpace, trailingSpace, TrimSpace.
  rewrite list_ascii_of_string_of_list_ascii.
  set (q := trimLeft (list_ascii_of_string x)).
  assert (Hq : cutAny white_space q = None).
  { apply trimN_stable; [apply white_space_nonempty|done]. }
  unfold trimRight.
  set (y := trimN (map (@rev ascii) white_space) (length q) (rev q)).
  assert (Hy : cutAny (map (@rev ascii) white_space) y = None).
  { apply trimN_stable; [apply white_space_rev_nonempty|].
    by rewrite length_rev. }
  destruct (trimN_suffix (map (@rev ascii) white_space) (length q) (rev q))
    as [pre Hpre].
  fold y in Hpre.
  assert (Hqy : q = rev y ++ rev pre).
  { rewrite <- rev_app_distr, <- Hpre. by rewrite rev_involutive. }
  split.
  - rewrite Hqy in Hq. by rewrite (cutAny_app _ _ _ Hq).
  - by rewrite rev_involutive, Hy.
Qed.

Import shell.

(** X13: the text [GetPrompt] returns neither starts nor ends with white
    space, whatever the prompt of the shell is, and [SetPrompt] with the
    text [GetPrompt] has returned leaves [GetPrompt] as it was. *)
Theorem GetPrompt_is_trimmed (s : Shell) :
  leadingSpace (GetPrompt s) = false
  /\ trailingSpace (GetPrompt s) = false
  /\ GetPrompt (SetPrompt s (GetPrompt s)) = GetPrompt s.
Proof.
  destruct (TrimSpace_trimmed (currentPrompt s)) as [Hl Hr].
  repeat split; try done.
  unfold GetPrompt at 1. simpl. rewrite TrimSpace_space.
  by apply TrimSpace_plain.
Qed.

End Trimmed.

(** ** NewShell and the example application *)

Section New.

Import shell.

(** X1: [NewShell] returns the error of [readline.NewEx] when there is
    one, and no shell.  Otherwise the shell it returns has the core
    module registered and enabled, the four commands of core on the
    root command and in the completer, the help function of core
    installed, the prompt of one greater-than sign, an empty state, and
    the root command named as asked, or shell when no name is given. *)
Theorem NewShell_result (rootCmdName banner : string) :
  (forall err, NewShell rootCmdName banner (Some err) = inr err)
  /\ exists p,
       NewShell rootCmdName banner None = inl (Running p)
       /\ GetModules (sh p) = ["core"]
       /\ IsModuleEnabled (sh p) "core" = true
       /\ map cobra.Name (registry.namespace (sh p))
          = ["disable"; "enable"; "exit"; "modules"]
       /\ GetModuleCommands (sh p) !! "core" = Some (core.GetCommands 0)
       /\ readline.AutoComplete (rl (sh p))
          = ["disable"; "enable"; "exit"; "modules"]
       /\ cobra.helpFunc (GetRootCmd (sh p)) = cobra.ModuleHelp
       /\ GetPrompt (sh p) = ">"
       /\ State (sh p) = ∅
       /\ shell.banner (sh p) = banner
       /\ cobra.RootUse (GetRootCmd (sh p))
          = (if String.eqb rootCmdName "" then "shell" else rootCmdName)
       /\ stdout p = [].
Proof.
  split; [done|]. eexists. split; [reflexivity|].
  repeat split.
Qed.

(** X19: [RegisterModule] with the timer module puts the start time into
    the shared state.  The time command prints that no start time is
    found when the key is missing and changes nothing; with a time
    under the key it prints the time elapsed and sets the prompt to it;
    with a value of another type its type assertion panics. *)
Theorem timer_module_and_time_command
  (q : nat) (now : Z) (elapsed : string) (args : list string) (p : Proc) :
  GetState (sh (procOf (RegisterModule (example.NewTimerModule q now) p)))
           "start_time"
  = (shellapi.VTime now, true)
  /\ (State (sh p) !! "start_time" = None ->
      exec (example.timeRun elapsed args) p
      = Running {| sh := sh p;
                   stdout := stdout p ++ ["Start time not found in state"] |})
  /\ (forall t, State (sh p) !! "start_time" = Some (shellapi.VTime t) ->
      exec (example.timeRun elapsed args) p
      = Running {| sh := SetPrompt (sh p) ("(" +:+ elapsed +:+ ")");
                   stdout := stdout p
                             ++ ["Shell has been running for " +:+ elapsed] |})
  /\ (forall v, State (sh p) !! "start_time" = Some v ->
      (forall t, v <> shellapi.VTime t) ->
      exec (example.timeRun elapsed args) p = Exited 2 p).
Proof.
  split; [|split; [|split]].
  - unfold GetState, RegisterModule.
    change (exec (module.Initialize (example.NewTimerModule q now))
              (setSh (attach (example.NewTimerModule q now) (sh p)) p))
      with (Running (setSh (SetState (attach (example.NewTimerModule q now) (sh p))
                              "start_time" (shellapi.VTime now))
                           (setSh (attach (example.NewTimerModule q now) (sh p)) p))).
    cbv beta iota. unfold procOf, setSh, sh.
    rewrite updateCompleter_State. unfold SetState, setState, State.
    by rewrite lookup_insert_eq.
  - intros Hnone. unfold example.timeRun. simpl. unfold GetState.
    by rewrite Hnone.
  - intros t Hsome. unfold example.timeRun. simpl. unfold GetState.
    by rewrite Hsome.
  - intros v Hsome Hother. unfold example.timeRun. simpl. unfold GetState.
    rewrite Hsome. destruct v; try done. by destruct (Hother t).
Qed.

End New.

(** ** A module is enabled when it is registered *)

Section Default.

Import shell.

Lemma EnableModule_keeps s n n' :
  enabledAt s n = true -> enabledAt (EnableModule s n').1 n = true.
Proof.
  intros Hen. pose proof (EnableModule_enabledModules s n') as He.
  destruct (found s n' && negb (enabledAt s n')).
  - rewrite (enabledAt_insert _ _ _ _ n He).
    destruct (decide (n' = n)); [done|exact Hen].
  - unfold enabledAt in *. by rewrite He.
Qed.

Lemma DisableModule_keeps s n n' :
  n' <> n -> enabledAt s n = true -> enabledAt (DisableModule s n').1 n = true.
Proof.
  intros Hne Hen. pose proof (DisableModule_enabledModules s n') as He.
  destruct (negb (String.eqb n' "core") && found s n' && enabledAt s n').
  - rewrite (enabledAt_insert _ _ _ _ n He). by rewrite decide_False.
  - unfold enabledAt in *. by rewrite He.
Qed.

Lemma exec_keepsEnabled n c p :
  tables.keepsEnabled n c -> enabledAt (sh p) n = true ->
  enabledAt (sh (procOf (exec c p))) n = true.
Proof.
  revert p. induction c as [| | |n' k IH|n' k IH| | |k IH| | | | | |];
    intros p Hk Hen; simpl in *; try done;
    try (by apply IHc); try (by apply H).
  - destruct (EnableModule (sh p) n') as [s err] eqn:He.
    apply IH; [done|]. simpl. rewrite (fst_eq _ _ _ He).
    by apply EnableModule_keeps.
  - destruct Hk as [Hne Hk].
    destruct (DisableModule (sh p) n') as [s err] eqn:He.
    apply IH; [done|]. simpl. rewrite (fst_eq _ _ _ He).
    by apply DisableModule_keeps.
  - destruct (cobra.Commands _) as [r cmds]. by apply IH.
Qed.

(** X3: a module whose [Initialize] does not disable the module itself
    is enabled when [RegisterModule] is over, and [GetModules] has its
    name. *)
Theorem RegisterModule_enables_the_module
  (m : module.CommandModule) (p : Proc)
  (Hkeeps : tables.keepsEnabled (module.Name m) (module.Initialize m)) :
  IsModuleEnabled (sh (procOf (RegisterModule m p))) (module.Name m) = true
  /\ module.Name m ∈ GetModules (sh (procOf (RegisterModule m p))).
Proof.
  split.
  - unfold IsModuleEnabled, RegisterModule.
    pose proof (exec_keepsEnabled (module.Name m) (module.Initialize m)
                  (setSh (attach m (sh p)) p) Hkeeps) as He.
    assert (Hatt : enabledAt (sh (setSh (attach m (sh p)) p)) (module.Name m)
                   = true).
    { unfold enabledAt, attach. simpl. by rewrite lookup_insert_eq. }
    specialize (He Hatt).
    destruct (exec _ _) as [p'|code p']; simpl in *; [|done].
    unfold enabledAt in *. by rewrite updateCompleter_enabledModules.
  - unfold GetModules. rewrite RegisterModule_commandModules, map_app.
    apply elem_of_app. right. left.
Qed.

End Default.

(** ** The properties above on the shell of the example *)

Section MoreInstances.

Import shell registry.

Lemma GetModules_registration_order_witness :
  trace.run timerOffOn {| sh := initial "timer-demo" ""; stdout := [] |}
  = Running (procOf (trace.run timerOffOn
                       {| sh := initial "timer-demo" ""; stdout := [] |}))
  /\ GetModules (trace.after timerOffOn (initial "timer-demo" ""))
     = ["core"; "timer"].
Proof.
  assert (H : trace.run timerOffOn {| sh := initial "timer-demo" ""; stdout := [] |}
              = Running (procOf (trace.run timerOffOn
                                   {| sh := initial "timer-demo" "";
                                      stdout := [] |})))
    by reflexivity.
  split; [exact H|].
  apply (GetModules_registration_order "timer-demo" "" [] timerOffOn _ H).
Defined.

Lemma completer_offers_the_namespace_witness :
  forallb trace.methodCall timerOffOn = true
  /\ trace.run timerOffOn {| sh := initial "timer-demo" ""; stdout := [] |}
     = Running (procOf (trace.run timerOffOn
                          {| sh := initial "timer-demo" ""; stdout := [] |}))
  /\ readline.AutoComplete (rl (trace.after timerOffOn (initial "timer-demo" "")))
     = map cobra.Name (namespace (trace.after timerOffOn (initial "timer-demo" ""))).
Proof.
  assert (H : trace.run timerOffOn {| sh := initial "timer-demo" ""; stdout := [] |}
              = Running (procOf (trace.run timerOffOn
                                   {| sh := initial "timer-demo" "";
                                      stdout := [] |})))
    by reflexivity.
  split; [reflexivity|]. split; [exact H|].
  apply (completer_offers_the_namespace "timer-demo" "" [] timerOffOn _
           eq_refl H).
Defined.

Lemma timerFirst_rangeOrder :
  rangeOrder exithooks.timerDemo help.timerFirst.
Proof.
  unfold rangeOrder.
  replace (map_to_list (enabledModules exithooks.timerDemo))
    with [("core", true); ("timer", true)] by (vm_compute; reflexivity).
  apply perm_swap.
Qed.

Lemma help_lists_registered_commands_witness :
  rangeOrder exithooks.timerDemo help.timerFirst
  /\ ("timer", example.GetCommands 4 0)
     ∈ core.shown (view exithooks.timerDemo help.timerFirst)
  /\ forall c, c ∈ example.GetCommands 4 0 ->
       c ∈ namespace exithooks.timerDemo.
Proof.
  assert (H1 : rangeOrder exithooks.timerDemo help.timerFirst)
    by exact timerFirst_rangeOrder.
  assert (H2 : ("timer", example.GetCommands 4 0)
               ∈ core.shown (view exithooks.timerDemo help.timerFirst))
    by (vm_compute; left).
  split; [exact H1|]. split; [exact H2|].
  intros c Hc.
  destruct (help_lists_registered_commands exithooks.timerDemo help.timerFirst
              ("timer", example.GetCommands 4 0) H1 H2) as (_ & _ & Hall).
  by destruct (Hall c Hc).
Defined.

Lemma help_after_DisableModule_witness :
  (DisableModule exithooks.timerDemo "timer").2 = None
  /\ rangeOrder (DisableModule exithooks.timerDemo "timer").1
                [("core", true); ("timer", false)]
  /\ "timer" ∈ core.disabled
                 (view (DisableModule exithooks.timerDemo "timer").1
                       [("core", true); ("timer", false)]).
Proof.
  assert (H1 : (DisableModule exithooks.timerDemo "timer").2 = None)
    by reflexivity.
  assert (H2 : rangeOrder (DisableModule exithooks.timerDemo "timer").1
                          [("core", true); ("timer", false)]).
  { unfold rangeOrder.
    replace (map_to_list (enabledModules (DisableModule exithooks.timerDemo "timer").1))
      with [("core", true); ("timer", false)] by (vm_compute; reflexivity).
    reflexivity. }
  split; [exact H1|]. split; [exact H2|].
  by destruct (help_after_DisableModule exithooks.timerDemo "timer" _ H1 H2).
Defined.

Lemma GetEnabledModules_are_the_enabled_witness :
  rangeOrder (trace.after timerOffOn (initial "timer-demo" "")) help.timerFirst
  /\ NoDup (GetEnabledModules (trace.after timerOffOn (initial "timer-demo" ""))
              help.timerFirst).
Proof.
  assert (H : rangeOrder (trace.after timerOffOn (initial "timer-demo" ""))
                help.timerFirst).
  { unfold rangeOrder.
    replace (map_to_list (enabledModules
                            (trace.after timerOffOn (initial "timer-demo" ""))))
      with [("core", true); ("timer", true)] by (vm_compute; reflexivity).
    apply perm_swap. }
  split; [exact H|].
  by destruct (GetEnabledModules_are_the_enabled "timer-demo" "" timerOffOn
                 help.timerFirst H).
Defined.

Lemma OnExit_without_exit_command_witness :
  map cobra.Name (namespace tables.timerOnly) = ["reset"; "time"]
  /\ (forall c, c ∈ namespace tables.timerOnly -> cobra.Name c <> "exit")
  /\ OnExit tables.timerOnly (shellapi.Print ["bye"] shellapi.Return)
     = setRootCmd (cobra.Commands (rootCmd tables.timerOnly)).1
                  tables.timerOnly.
Proof.
  assert (Hnames : map cobra.Name (namespace tables.timerOnly)
                   = ["reset"; "time"]) by reflexivity.
  assert (H : forall c, c ∈ namespace tables.timerOnly
                        -> cobra.Name c <> "exit").
  { intros c Hc Hexit.
    assert (Hin : cobra.Name c ∈ map cobra.Name (namespace tables.timerOnly))
      by (apply list_elem_of_fmap; eauto).
    rewrite Hnames, Hexit in Hin.
    apply elem_of_cons in Hin as [Hin|Hin]; [discriminate|].
    apply list_elem_of_singleton in Hin. discriminate. }
  split; [exact Hnames|]. split; [exact H|].
  apply (OnExit_without_exit_command tables.timerOnly _ H).
Defined.

Lemma DisableModule_then_EnableModule_witness :
  forallb trace.registryCall timerOffOn = true
  /\ NoDup (names (trace.registered timerOffOn))
  /\ NoDup (descriptors (trace.registered timerOffOn))
  /\ "timer" ∈ GetModules (trace.after timerOffOn (initial "timer-demo" ""))
  /\ "timer" <> "core"
  /\ IsModuleEnabled (trace.after timerOffOn (initial "timer-demo" "")) "timer"
     = true
  /\ namespace
       (EnableModule
          (DisableModule (trace.after timerOffOn (initial "timer-demo" ""))
                         "timer").1 "timer").1
     ≡ₚ namespace (trace.after timerOffOn (initial "timer-demo" "")).
Proof.
  assert (H1 : forallb trace.registryCall timerOffOn = true) by reflexivity.
  assert (H2 : NoDup (names (trace.registered timerOffOn))) by compute_done.
  assert (H3 : NoDup (descriptors (trace.registered timerOffOn)))
    by compute_done.
  assert (H4 : "timer" ∈ GetModules (trace.after timerOffOn
                                       (initial "timer-demo" "")))
    by compute_done.
  assert (H5 : "timer" <> "core") by discriminate.
  assert (H6 : IsModuleEnabled (trace.after timerOffOn (initial "timer-demo" ""))
                 "timer" = true) by reflexivity.
  repeat (split; [assumption|]).
  by destruct (DisableModule_then_EnableModule "timer-demo" "" timerOffOn
                 "timer" H1 H2 H3 H4 H5 H6) as (_ & Hperm & _).
Defined.

Lemma RegisterModule_enables_the_module_witness :
  tables.keepsEnabled "timer" (example.Initialize 0)
  /\ IsModuleEnabled
       (sh (procOf (RegisterModule (example.NewTimerModule 4 0) example.newShell)))
       "timer" = true.
Proof.
  assert (H : tables.keepsEnabled (module.Name (example.NewTimerModule 4 0))
                (module.Initialize (example.NewTimerModule 4 0)))
    by exact I.
  split; [exact H|].
  by destruct (RegisterModule_enables_the_module
                 (example.NewTimerModule 4 0) example.newShell H).
Defined.

End MoreInstances.
